(** * MyTCPProtocol: a reliable byte stream over UDP (protocol.py)

    Shallow embedding of [TCPSegment] and [MyTCPProtocol] and the
    properties of the protocol specification that can be stated over it.

    Conventions of the embedding:
    - Python [int] is [Z] (unbounded); [bytes] is [list byte];
      [len] is [len : list byte -> Z].
    - Slices [b[:k]], [b[k:]], [b[i:j]] follow Python's rules, negative
      indices included.
    - The object state [self] is a record threaded through a state monad;
      exceptions and loop fuel are outcomes of that monad.
    - The datagram socket and the wall clock are the environment: the k-th
      call of [recvfrom], [sendto] and [time.time] is answered by an oracle
      ([Env]), so that a statement quantified over [Env] speaks of every
      behaviour of the network and of the clock.
    - [queue.PriorityQueue] (standard library, not part of the repository)
      is modelled by its contract: a list kept in key order, [put] inserts
      in order (after the entries that are not larger), [get] removes the
      head, [queue[0]] is the head. *)

From Stdlib Require Import ZArith List Bool Lia Strings.Byte Sorting.Permutation Sorting.Sorted.
Import ListNotations.
Local Open Scope Z_scope.

(* ------------------------------------------------------------------ *)
(** ** Bytes, lengths and Python slices *)

Definition bytes : Type := list byte.

Definition len {A : Type} (l : list A) : Z := Z.of_nat (length l).

(** Index normalisation of a Python slice bound on a sequence of length [n]:
    a negative bound counts from the end, and the result is clamped to
    [0..n]. *)
Definition slice_index (n : Z) (i : Z) : nat :=
  Z.to_nat (Z.max 0 (Z.min n (if i <? 0 then i + n else i))).

(** [b[:k]] *)
Definition slice_to {A : Type} (l : list A) (k : Z) : list A :=
  firstn (slice_index (len l) k) l.

(** [b[k:]] *)
Definition slice_from {A : Type} (l : list A) (k : Z) : list A :=
  skipn (slice_index (len l) k) l.

(** [b[i:j]] *)
Definition slice {A : Type} (l : list A) (i j : Z) : list A :=
  let a := slice_index (len l) i in
  let b := slice_index (len l) j in
  firstn (b - a) (skipn a l).

Definition byte_val (b : byte) : Z := Z.of_N (Byte.to_N b).

Definition byte_of_Z (z : Z) : byte :=
  match Byte.of_N (Z.to_N (z mod 256)) with
  | Some b => b
  | None => x00
  end.

(** [int.to_bytes(length, "big", signed=False)]: the big-endian digits, or
    [None] for the [OverflowError] raised on a negative or too large
    value. *)
Fixpoint be_digits (n : nat) (z : Z) : bytes :=
  match n with
  | O => []
  | S k => be_digits k (z / 256) ++ [byte_of_Z z]
  end.

Definition to_bytes (z : Z) (n : nat) : option bytes :=
  if (0 <=? z) && (z <? 256 ^ Z.of_nat n)
  then Some (be_digits n z)
  else None.

(** [int.from_bytes(b, "big", signed=False)] *)
Definition from_bytes (b : bytes) : Z :=
  fold_left (fun acc x => acc * 256 + byte_val x) b 0.

(* ------------------------------------------------------------------ *)
(** ** class TCPSegment *)

Definition service_len : Z := 8 + 8.

(** [ack_timeout = 0.01] seconds; clock readings are in microseconds. *)
Definition ack_timeout : Z := 10000.

Record TCPSegment : Type := mkSegment {
  seq_number : Z;
  ack_number : Z;
  data : bytes;
  _sending_time : Z
}.

Definition set_data (s : TCPSegment) (d : bytes) : TCPSegment :=
  mkSegment (seq_number s) (ack_number s) d (_sending_time s).

Definition set_sending_time (s : TCPSegment) (t : Z) : TCPSegment :=
  mkSegment (seq_number s) (ack_number s) (data s) t.

(** [TCPSegment.dump]; [None] is the [OverflowError] of [to_bytes]. *)
Definition dump (s : TCPSegment) : option bytes :=
  match to_bytes (seq_number s) 8 with
  | None => None
  | Some seq =>
      match to_bytes (ack_number s) 8 with
      | None => None
      | Some ack => Some (seq ++ ack ++ data s)
      end
  end.

(** [TCPSegment.load], given the clock reading [now] that the constructor
    stores in [_sending_time]. *)
Definition load (now : Z) (d : bytes) : TCPSegment :=
  let seq := from_bytes (slice_to d 8) in
  let ack := from_bytes (slice d 8 16) in
  mkSegment seq ack (slice_from d service_len) now.

(** [segment.expired], given the clock reading [now].  Readings are exact
    integers here and floating-point seconds in the code: for a segment
    sent exactly [ack_timeout] ago the rounded difference of two floats may
    exceed 0.01 where the exact one does not. *)
Definition expired (now : Z) (s : TCPSegment) : bool :=
  now - _sending_time s >? ack_timeout.

(** [__lt__] *)
Definition segment_lt (a b : TCPSegment) : bool :=
  seq_number a <? seq_number b.

(* ------------------------------------------------------------------ *)
(** ** queue.PriorityQueue of [(seq_number, segment)] tuples

    The queue is the list of its entries in the order in which successive
    [get()] calls return them: [queue[0]] is the head, [get()] removes the
    head, [empty()] holds of [[]], and [put] inserts an entry behind those
    that are not larger.  Entries with equal keys come out in the order
    they were put in, a choice that the contract of [PriorityQueue] leaves
    open. *)

Definition entry : Type := (Z * TCPSegment)%type.

(** Python's order on the tuples: by the first component, then by
    [TCPSegment.__lt__]. *)
Definition entry_lt (a b : entry) : bool :=
  (fst a <? fst b) || ((fst a =? fst b) && segment_lt (snd a) (snd b)).

Definition PriorityQueue : Type := list entry.

Fixpoint put (e : entry) (q : PriorityQueue) : PriorityQueue :=
  match q with
  | [] => [e]
  | h :: t => if entry_lt e h then e :: h :: t else h :: put e t
  end.

(* ------------------------------------------------------------------ *)
(** ** The endpoint object *)

Definition mss : Z := 1500.
Definition window_size : Z := mss * 12.
Definition ack_crit_lag : Z := 20.

Record MyTCPProtocol : Type := mkProtocol {
  _sent_bytes_n : Z;
  _confirmed_bytes_n : Z;
  _received_bytes_n : Z;
  _send_window : PriorityQueue;
  _recv_window : PriorityQueue;
  _buffer : bytes
}.

(** [MyTCPProtocol.__init__] *)
Definition init : MyTCPProtocol := mkProtocol 0 0 0 [] [] [].

Definition set_sent_bytes_n (v : Z) (p : MyTCPProtocol) : MyTCPProtocol :=
  mkProtocol v (_confirmed_bytes_n p) (_received_bytes_n p)
             (_send_window p) (_recv_window p) (_buffer p).
Definition set_confirmed_bytes_n (v : Z) (p : MyTCPProtocol) : MyTCPProtocol :=
  mkProtocol (_sent_bytes_n p) v (_received_bytes_n p)
             (_send_window p) (_recv_window p) (_buffer p).
Definition set_send_window (v : PriorityQueue) (p : MyTCPProtocol) : MyTCPProtocol :=
  mkProtocol (_sent_bytes_n p) (_confirmed_bytes_n p) (_received_bytes_n p)
             v (_recv_window p) (_buffer p).
Definition set_recv_window (v : PriorityQueue) (p : MyTCPProtocol) : MyTCPProtocol :=
  mkProtocol (_sent_bytes_n p) (_confirmed_bytes_n p) (_received_bytes_n p)
             (_send_window p) v (_buffer p).
Definition set_buffer (v : bytes) (p : MyTCPProtocol) : MyTCPProtocol :=
  mkProtocol (_sent_bytes_n p) (_confirmed_bytes_n p) (_received_bytes_n p)
             (_send_window p) (_recv_window p) v.

(* ------------------------------------------------------------------ *)
(** ** The environment: datagram socket and clock *)

Inductive RecvOutcome : Type :=
| RecvTimeout                   (* socket.timeout *)
| RecvError                     (* socket.error *)
| RecvDatagram (d : bytes).     (* a datagram arrived *)

Inductive SendOutcome : Type :=
| SendError                     (* socket.error *)
| SendReturns (n : Z).          (* the byte count [sendto] returns *)

Record Env : Type := mkEnv {
  recvfrom_outcome : nat -> RecvOutcome;        (* k-th call of recvfrom *)
  sendto_outcome : nat -> bytes -> SendOutcome; (* k-th call of sendto *)
  time_reading : nat -> Z                       (* k-th call of time.time *)
}.

(** What the endpoint did on the socket, most recent first.  A [sendto]
    event keeps the endpoint's fields as they were when the datagram was
    handed over. *)
Inductive Event : Type :=
| EvSendto (d : bytes) (r : SendOutcome) (at_call : MyTCPProtocol)
| EvRecvfrom (timeout : option Z) (r : RecvOutcome).

Record World : Type := mkWorld {
  self : MyTCPProtocol;
  udp_timeout : option Z;      (* udp_socket.settimeout *)
  recv_calls : nat;
  send_calls : nat;
  time_calls : nat;
  trace : list Event
}.

Definition initial_world : World := mkWorld init None 0 0 0 [].

(* ------------------------------------------------------------------ *)
(** ** State, exceptions, fuel *)

Inductive Exn : Type := OverflowError | SocketTimeout | SocketError.

Inductive Result (A : Type) : Type :=
| Ret (a : A) (w : World)         (* normal completion *)
| Raise (e : Exn) (w : World)     (* an exception leaves the call *)
| OutOfFuel (w : World).          (* the loop is still running *)
Arguments Ret {A} a w.
Arguments Raise {A} e w.
Arguments OutOfFuel {A} w.

Definition M (A : Type) : Type := World -> Result A.

Definition ret {A : Type} (a : A) : M A := fun w => Ret a w.

Definition bind {A B : Type} (m : M A) (k : A -> M B) : M B :=
  fun w =>
    match m w with
    | Ret a w' => k a w'
    | Raise e w' => Raise e w'
    | OutOfFuel w' => OutOfFuel w'
    end.

Definition raise {A : Type} (e : Exn) : M A := fun w => Raise e w.
Definition out_of_fuel {A : Type} : M A := fun w => OutOfFuel w.

(** [try: body except (socket.timeout, socket.error): handler] *)
Definition is_socket_exn (e : Exn) : bool :=
  match e with
  | SocketTimeout | SocketError => true
  | OverflowError => false
  end.

Definition try_except_socket {A : Type} (body handler : M A) : M A :=
  fun w =>
    match body w with
    | Raise e w' => if is_socket_exn e then handler w' else Raise e w'
    | r => r
    end.

Declare Scope py_scope.
Delimit Scope py_scope with py.
Notation "x <- m ;; k" := (bind m (fun x => k))
  (at level 61, m at next level, right associativity) : py_scope.
Notation "m ;; k" := (bind m (fun _ => k))
  (at level 61, right associativity) : py_scope.
Local Open Scope py_scope.

Definition get_self : M MyTCPProtocol := fun w => Ret (self w) w.

Definition modify_self (f : MyTCPProtocol -> MyTCPProtocol) : M unit :=
  fun w => Ret tt (mkWorld (f (self w)) (udp_timeout w) (recv_calls w)
                           (send_calls w) (time_calls w) (trace w)).

Definition final_world {A : Type} (r : Result A) : World :=
  match r with
  | Ret _ w | Raise _ w | OutOfFuel w => w
  end.

(* ------------------------------------------------------------------ *)
(** ** The methods *)

Section Endpoint.

Variable env : Env.

(** [time.time()] *)
Definition time_time : M Z :=
  fun w => Ret (time_reading env (time_calls w))
               (mkWorld (self w) (udp_timeout w) (recv_calls w)
                        (send_calls w) (S (time_calls w)) (trace w)).

(** [udp_socket.settimeout(t)] *)
Definition settimeout (t : option Z) : M unit :=
  fun w => Ret tt (mkWorld (self w) t (recv_calls w)
                           (send_calls w) (time_calls w) (trace w)).

(** [UDPBasedProtocol.sendto] *)
Definition sendto (d : bytes) : M Z :=
  fun w =>
    let r := sendto_outcome env (send_calls w) d in
    let w' := mkWorld (self w) (udp_timeout w) (recv_calls w)
                      (S (send_calls w)) (time_calls w)
                      (EvSendto d r (self w) :: trace w) in
    match r with
    | SendError => Raise SocketError w'
    | SendReturns n => Ret n w'
    end.

(** [UDPBasedProtocol.recvfrom]: at most [n] bytes of the datagram. *)
Definition recvfrom (n : Z) : M bytes :=
  fun w =>
    let r := recvfrom_outcome env (recv_calls w) in
    let w' := mkWorld (self w) (udp_timeout w) (S (recv_calls w))
                      (send_calls w) (time_calls w)
                      (EvRecvfrom (udp_timeout w) r :: trace w) in
    match r with
    | RecvTimeout => Raise SocketTimeout w'
    | RecvError => Raise SocketError w'
    | RecvDatagram d => Ret (slice_to d n) w'
    end.

(** [TCPSegment(seq_number, ack_number, data)] *)
Definition new_TCPSegment (seq ack : Z) (d : bytes) : M TCPSegment :=
  now <- time_time ;;
  ret (mkSegment seq ack d now).

(** [TCPSegment.load(data)] *)
Definition TCPSegment_load (d : bytes) : M TCPSegment :=
  now <- time_time ;;
  ret (load now d).

(** [segment.dump()] *)
Definition TCPSegment_dump (s : TCPSegment) : M bytes :=
  match dump s with
  | Some d => ret d
  | None => raise OverflowError
  end.

Definition _send_segment (segment : TCPSegment) : M Z :=
  settimeout None ;;
  d <- TCPSegment_dump segment ;;
  total_sent <- sendto d ;;
  let data_sent_len := total_sent - service_len in
  p <- get_self ;;
  (if seq_number segment =? _sent_bytes_n p
   then modify_self (set_sent_bytes_n (_sent_bytes_n p + data_sent_len))
   else ret tt) ;;
  (if data_sent_len >? 0
   then
     let segment := set_data segment (slice_to (data segment) data_sent_len) in
     now <- time_time ;;
     let segment := set_sending_time segment now in
     modify_self (fun p => set_send_window
                             (put (seq_number segment, segment) (_send_window p)) p)
   else ret tt) ;;
  ret data_sent_len.

(** The loop of [_process_recv_window] on the queue [q], the counter
    [received] and the read buffer [buffer]: the loop ends on the empty
    queue; otherwise [get()] returns the head and leaves [q']. *)
Fixpoint drain_recv_window (q : PriorityQueue) (received : Z) (buffer : bytes)
  : PriorityQueue * Z * bytes :=
  match q with
  | [] => ([], received, buffer)
  | (seq_number', segment) :: q' =>
      if seq_number segment =? received then
        drain_recv_window q' (received + len (data segment)) (buffer ++ data segment)
      else if seq_number segment >? received then
        (put (seq_number', segment) q', received, buffer)
      else
        drain_recv_window q' received buffer
  end.

Definition process_recv_window (p : MyTCPProtocol) : MyTCPProtocol :=
  let '(q, received, buffer) :=
    drain_recv_window (_recv_window p) (_received_bytes_n p) (_buffer p) in
  mkProtocol (_sent_bytes_n p) (_confirmed_bytes_n p) received
             (_send_window p) q buffer.

Definition _process_recv_window : M unit := modify_self process_recv_window.

(** The loop of [_process_send_window]: while the queue is not empty and
    the key of [queue[0]] is below [confirmed], [get()] drops the head. *)
Fixpoint prune_send_window (confirmed : Z) (q : PriorityQueue) : PriorityQueue :=
  match q with
  | [] => []
  | (seq_number', segment) :: q' =>
      if seq_number' <? confirmed then prune_send_window confirmed q'
      else (seq_number', segment) :: q'
  end.

Definition _process_send_window : M unit :=
  modify_self (fun p => set_send_window
                          (prune_send_window (_confirmed_bytes_n p) (_send_window p)) p).

(** [queue[0]] is inspected; [segment.expired] reads the clock; [get()]
    leaves [rest]. *)
Definition _resend_earliest_segment : M unit :=
  p <- get_self ;;
  match _send_window p with
  | [] => ret tt
  | (seq_number', segment) :: rest =>
      now <- time_time ;;
      if expired now segment then
        modify_self (set_send_window rest) ;;
        _send_segment segment ;;
        ret tt
      else ret tt
  end.

(** The [try] block of [_receive_segment]: [Some segment], or [None]
    where the [except] clause returns [False]. *)
Definition receive_attempt : M (option TCPSegment) :=
  try_except_socket
    (segment_data <- recvfrom (mss + service_len) ;;
     segment <- TCPSegment_load segment_data ;;
     ret (Some segment))
    (ret None).

Definition _receive_segment (timeout : option Z) : M bool :=
  settimeout timeout ;;
  received <- receive_attempt ;;
  match received with
  | None => ret false
  | Some segment =>
      (if len (data segment) >? 0
       then
         modify_self (fun p => set_recv_window
                                 (put (seq_number segment, segment) (_recv_window p)) p) ;;
         _process_recv_window ;;
         p <- get_self ;;
         ack_segment <- new_TCPSegment (_sent_bytes_n p) (_received_bytes_n p) [] ;;
         _send_segment ack_segment ;;
         ret tt
       else ret tt) ;;
      modify_self (set_confirmed_bytes_n (ack_number segment)) ;;
      _process_send_window ;;
      ret true
  end.

(** Python truth value of a [bytes] object. *)
Definition truthy (b : bytes) : bool :=
  match b with [] => false | _ :: _ => true end.

(** The local variables of [send]. *)
Record SendLocals : Type := mkLocals {
  l_data : bytes;
  l_sent_data_len : Z;
  l_lag : Z
}.

(** The condition of the [while] of [send]. *)
Definition send_continues (p : MyTCPProtocol) (l : SendLocals) : bool :=
  (truthy (l_data l) || (_confirmed_bytes_n p <? _sent_bytes_n p))
  && (l_lag l <? ack_crit_lag).

(** One iteration of the [while] of [send]. *)
Definition send_iteration (l : SendLocals) : M SendLocals :=
  p <- get_self ;;
  let window_is_full := _sent_bytes_n p - _confirmed_bytes_n p >? window_size in
  l' <- (if negb window_is_full && truthy (l_data l)
         then
           let segment_size := Z.min mss (len (l_data l)) in
           let segment_data := slice_to (l_data l) segment_size in
           segment <- new_TCPSegment (_sent_bytes_n p) (_received_bytes_n p) segment_data ;;
           sent_length <- _send_segment segment ;;
           ret (mkLocals (slice_from (l_data l) sent_length)
                         (l_sent_data_len l + sent_length)
                         (l_lag l))
         else
           ok <- _receive_segment (Some ack_timeout) ;;
           ret (mkLocals (l_data l) (l_sent_data_len l)
                         (if ok : bool then 0 else l_lag l + 1))) ;;
  _resend_earliest_segment ;;
  ret l'.

Fixpoint send_loop (fuel : nat) (l : SendLocals) : M SendLocals :=
  fun w =>
    if send_continues (self w) l then
      match fuel with
      | O => OutOfFuel w
      | S fuel' => (l' <- send_iteration l ;; send_loop fuel' l') w
      end
    else Ret l w.

Definition send (fuel : nat) (d : bytes) : M Z :=
  l <- send_loop fuel (mkLocals d 0 0) ;;
  ret (l_sent_data_len l).

Fixpoint recv_loop (fuel : nat) (n : Z) (d : bytes) : M bytes :=
  if len d <? n then
    match fuel with
    | O => out_of_fuel
    | S fuel' =>
        ok <- _receive_segment None ;;
        if negb ok then ret d
        else
          p <- get_self ;;
          let additional_data := slice_to (_buffer p) (n - len d) in
          let d := d ++ additional_data in
          modify_self (set_buffer (slice_from (_buffer p) (len additional_data))) ;;
          recv_loop fuel' n d
    end
  else ret d.

Definition recv (fuel : nat) (n : Z) : M bytes :=
  p <- get_self ;;
  let d := slice_to (_buffer p) n in
  modify_self (set_buffer (slice_from (_buffer p) n)) ;;
  recv_loop fuel n d.

End Endpoint.

(* ------------------------------------------------------------------ *)
(** ** The priority queues of an endpoint *)

(** Every tuple the endpoint puts into a queue is
    [(segment.seq_number, segment)]. *)
Definition keyed (e : entry) : Prop := fst e = seq_number (snd e).

(** A queue as [PriorityQueue] keeps it: in key order. *)
Definition pq_ok (q : PriorityQueue) : Prop :=
  Forall keyed q /\ StronglySorted (fun a b => fst a <= fst b) q.

(** ** Receive-window reassembly, in the words of the specification *)

(** [e] is a segment of lowest [seq] in [q]. *)
Definition lowest_seq (e : entry) (q : PriorityQueue) : Prop :=
  In e q /\ Forall (fun x => seq_number (snd e) <= seq_number (snd x)) q.

(** [reassembly q received buffer q' received' buffer']: draining the
    window [q] with counter [received] and read buffer [buffer] ends with
    window [q'], counter [received'] and read buffer [buffer'].  Windows
    are compared by their contents. *)
Inductive reassembly :
  PriorityQueue -> Z -> bytes -> PriorityQueue -> Z -> bytes -> Prop :=
| reassembly_empty : forall received buffer,
    reassembly [] received buffer [] received buffer
| reassembly_in_order : forall q e rest received buffer q' received' buffer',
    lowest_seq e q -> Permutation q (e :: rest) ->
    seq_number (snd e) = received ->
    reassembly rest (received + len (data (snd e))) (buffer ++ data (snd e))
               q' received' buffer' ->
    reassembly q received buffer q' received' buffer'
| reassembly_gap : forall q e q' received buffer,
    lowest_seq e q -> Permutation q q' ->
    seq_number (snd e) > received ->
    reassembly q received buffer q' received buffer
| reassembly_duplicate : forall q e rest received buffer q' received' buffer',
    lowest_seq e q -> Permutation q (e :: rest) ->
    seq_number (snd e) < received ->
    reassembly rest received buffer q' received' buffer' ->
    reassembly q received buffer q' received' buffer'.

(* ------------------------------------------------------------------ *)
(** ** Reasoning about calls *)

(** [post r Q X]: a call with outcome [r] either completes with a value
    and a world satisfying [Q], or is left by an exception or an exhausted
    fuel in a world satisfying [X]. *)
Definition post {A : Type} (r : Result A)
  (Q : A -> World -> Prop) (X : World -> Prop) : Prop :=
  match r with
  | Ret a w => Q a w
  | Raise _ w => X w
  | OutOfFuel w => X w
  end.

(** The net effect of [_send_segment segment] on the endpoint when
    [sendto] returns [n] and the clock reads [now]. *)
Definition send_effect (segment : TCPSegment) (n now : Z) (p : MyTCPProtocol)
  : MyTCPProtocol :=
  let data_sent_len := n - service_len in
  let p1 := if seq_number segment =? _sent_bytes_n p
            then set_sent_bytes_n (_sent_bytes_n p + data_sent_len) p
            else p in
  if data_sent_len >? 0
  then set_send_window
         (put (seq_number segment,
               mkSegment (seq_number segment) (ack_number segment)
                         (slice_to (data segment) data_sent_len) now)
              (_send_window p1)) p1
  else p1.

(* ------------------------------------------------------------------ *)
(** ** Concrete environments and payloads used in the examples *)

(** A UDP socket that sends every datagram whole. *)
Definition udp_sendto (k : nat) (d : bytes) : SendOutcome := SendReturns (len d).

(** The network delivers [arrivals] to the successive calls of [recvfrom]
    and nothing afterwards; the clock follows [clock]. *)
Definition network (arrivals : list RecvOutcome) (clock : nat -> Z) : Env :=
  mkEnv (fun k => nth k arrivals RecvTimeout) udp_sendto clock.

(** The datagram of a segment with the given fields. *)
Definition datagram (seq ack : Z) (payload : bytes) : bytes :=
  be_digits 8 seq ++ be_digits 8 ack ++ payload.

Definition hello : bytes := ["h"; "e"; "l"; "l"; "o"]%byte.

(** A receive window right after a segment with [seq = 0] has been put
    into it: a duplicate, the next segment and one beyond a gap follow. *)
Definition gapped_window : PriorityQueue :=
  [ (0, mkSegment 0 0 ["a"; "b"]%byte 0);
    (1, mkSegment 1 0 ["b"]%byte 0);
    (2, mkSegment 2 0 ["c"; "d"]%byte 0);
    (7, mkSegment 7 0 ["z"]%byte 0) ].

Definition gapped_world : World :=
  mkWorld (set_recv_window gapped_window init) None 0 0 0 [].

(* ------------------------------------------------------------------ *)
(** ** Observable states of an endpoint *)

(** The worlds in which an endpoint built by [__init__] can be observed
    after any sequence of [send] and [recv] calls: on return from a call,
    when an exception has left it, and, fuel being arbitrary, at the head of
    any iteration of its loop. *)
Inductive reachable (env : Env) : World -> Prop :=
| reachable_init : reachable env initial_world
| reachable_send : forall w fuel d,
    reachable env w -> reachable env (final_world (send env fuel d w))
| reachable_recv : forall w fuel n,
    reachable env w -> reachable env (final_world (recv env fuel n w)).

(** [sendto] never reports more bytes than it was given. *)
Definition sendto_within (env : Env) : Prop :=
  forall k d n, sendto_outcome env k d = SendReturns n -> n <= len d.

(** No segment of the send window is a pure acknowledgment. *)
Definition no_pure_ack (q : PriorityQueue) : Prop :=
  Forall (fun e => data (snd e) <> []) q.

(** A peer that is silent, and a clock that advances 3 ms per reading. *)
Definition silent_peer : Env := network [] (fun k => Z.of_nat k * 3000).

(* ------------------------------------------------------------------ *)
(** ** Segments on the wire *)

(** The fields of the segment a datagram carries. *)
Definition wire_seq (d : bytes) : Z := seq_number (load 0 d).
Definition wire_ack (d : bytes) : Z := ack_number (load 0 d).
Definition wire_payload (d : bytes) : bytes := data (load 0 d).

(** [sendto] reports at least the 16 header bytes of a datagram that has
    them. *)
Definition sendto_header_whole (env : Env) : Prop :=
  forall k d n,
    sendto_outcome env k d = SendReturns n -> service_len <= len d -> service_len <= n.

(** The segments of the send window were first transmitted below
    [sent_bytes] and carry an acknowledgment that is not ahead of
    [received_bytes]. *)
Definition window_behind (p : MyTCPProtocol) : Prop :=
  Forall (fun e => seq_number (snd e) < _sent_bytes_n p /\
                   ack_number (snd e) <= _received_bytes_n p)
         (_send_window p).

(** An outgoing datagram against the counters of the endpoint when it was
    handed to [sendto]: either it starts at [sent_bytes] (a first
    transmission or a pure acknowledgment) and acknowledges exactly
    [received_bytes], or it starts below [sent_bytes] (a retransmission)
    and its acknowledgment is not ahead of [received_bytes]. *)
Definition ack_not_ahead (ev : Event) : Prop :=
  match ev with
  | EvSendto d _ p =>
      (wire_seq d = _sent_bytes_n p /\ wire_ack d = _received_bytes_n p) \/
      (wire_seq d < _sent_bytes_n p /\ wire_ack d <= _received_bytes_n p)
  | EvRecvfrom _ _ => True
  end.

(** The peer's first data segment (two bytes), sent before it has seen
    anything from us, arrives while our first segment is unacknowledged;
    the peer's acknowledgment of our byte follows.  The clock advances 3 ms
    per reading. *)
Definition crossing : Env :=
  network [RecvDatagram (datagram 0 0 ["x"; "y"]%byte);
           RecvDatagram (datagram 2 1 [])]
          (fun k => Z.of_nat k * 3000).

(* ------------------------------------------------------------------ *)
(** ** Payload bytes put on the wire for the first time *)

(** [sendto] reports a byte count between the header length and the
    length of the datagram: it sends the header whole, and of the payload
    a prefix. *)
Definition sendto_sane (env : Env) : Prop :=
  forall k d n,
    sendto_outcome env k d = SendReturns n -> service_len <= len d ->
    service_len <= n <= len d.

(** The payload bytes that a socket event puts on the wire and that were
    never on it before: those accepted by [sendto] from a datagram that
    starts at the endpoint's [sent_bytes]. *)
Definition first_transmitted_by (ev : Event) : bytes :=
  match ev with
  | EvSendto d (SendReturns n) p =>
      if wire_seq d =? _sent_bytes_n p
      then slice_to (wire_payload d) (n - service_len)
      else []
  | _ => []
  end.

(** The same for a trace (most recent event first), in the order of
    transmission. *)
Definition first_transmitted (tr : list Event) : bytes :=
  concat (map first_transmitted_by (rev tr)).

(** Since the trace was [tr0], the events of the trace [tr] have put on the
    wire for the first time exactly the bytes [fresh]; [sent_bytes] is
    [sent], and the send window lies behind the counters. *)
Definition transmitted_since (tr0 : list Event) (fresh : bytes) (sent : Z)
  (p : MyTCPProtocol) (tr : list Event) : Prop :=
  window_behind p /\
  _sent_bytes_n p = sent /\
  exists ev, tr = ev ++ tr0 /\ first_transmitted ev = fresh.

(** The loop invariant of [send d0], started with trace [tr0] and
    [sent_bytes = sent0]: the tally counts the bytes of [d0] put on the
    wire for the first time, and the cursor [data] is what remains. *)
Definition send_invariant (d0 : bytes) (tr0 : list Event) (sent0 : Z)
  (l : SendLocals) (w : World) : Prop :=
  transmitted_since tr0 (slice_to d0 (l_sent_data_len l)) (sent0 + l_sent_data_len l)
                    (self w) (trace w) /\
  l_data l = slice_from d0 (l_sent_data_len l) /\
  0 <= l_sent_data_len l <= len d0.

(* ------------------------------------------------------------------ *)
(** ** Termination *)

(** The call is over: it returned or an exception left it. *)
Definition finishes {A : Type} (r : Result A) : Prop :=
  match r with
  | OutOfFuel _ => False
  | _ => True
  end.

(** A receive attempt with this outcome fails. *)
Definition is_failure (r : RecvOutcome) : bool :=
  match r with
  | RecvDatagram _ => false
  | _ => true
  end.







(** The network delivers [arrivals] and then the link is down: every later
    call of [recvfrom] raises [socket.error] at once. *)
Definition link_down_after (arrivals : list RecvOutcome) (clock : nat -> Z) : Env :=
  mkEnv (fun k => nth k arrivals RecvError) udp_sendto clock.

(** The peer sends one byte before it has received anything, then
    acknowledges our five bytes with a pure acknowledgment; the network
    delivers the acknowledgment first.  The clock advances 1 us per
    reading. *)
Definition overtaking : Env :=
  network [RecvDatagram (datagram 1 5 []);
           RecvDatagram (datagram 0 0 ["x"%byte])]
          (fun k => Z.of_nat k).

(** The peer's acknowledgment of 19500 bytes arrives; then arrives a pure
    acknowledgment with [ack = 0], which the peer had sent on receiving a
    segment out of order and which the network had delayed; then the link
    is down.  The clock advances 1 us per reading. *)
Definition delayed_ack : Env :=
  link_down_after [RecvDatagram (datagram 0 19500 []);
                   RecvDatagram (datagram 0 0 [])]
                  (fun k => Z.of_nat k).

(** 19501 bytes to send: thirteen full segments and one byte. *)
Definition large_payload : bytes := repeat "a"%byte (Z.to_nat 19501).

(** [I] holds of the endpoint's fields and socket trace in the world
    [w]. *)
Definition holds (I : MyTCPProtocol -> list Event -> Prop) (w : World) : Prop :=
  I (self w) (trace w).

(* ------------------------------------------------------------------ *)
(** ** Further properties: definitions *)

(** A queue whose keys are in order. *)
Definition key_ordered (q : PriorityQueue) : Prop :=
  StronglySorted (fun a b => fst a <= fst b) q.

(** A send window with three segments in flight. *)
Definition three_in_flight : PriorityQueue :=
  [ (0, mkSegment 0 0 ["a"; "b"]%byte 0);
    (2, mkSegment 2 0 ["c"]%byte 0);
    (3, mkSegment 3 0 ["d"; "e"]%byte 0) ].

Definition three_in_flight_world : World :=
  mkWorld (mkProtocol 5 0 0 three_in_flight [] []) None 0 0 0 [].

(** A segment whose [seq_number] does not fit 8 unsigned bytes. *)
Definition oversized_segment : TCPSegment := mkSegment (2 ^ 64) 0 ["a"%byte] 0.

(** The receive window holds, in key order, data segments of at most
    [mss] bytes that lie beyond [received_bytes]. *)
Definition recv_window_ok (p : MyTCPProtocol) : Prop :=
  pq_ok (_recv_window p) /\
  Forall (fun e => _received_bytes_n p < seq_number (snd e) /\
                   0 < len (data (snd e)) <= mss)
         (_recv_window p).

(** The byte range of the sender's stream that an entry carries ends
    where the range of a later entry begins, or before. *)
Definition range_before (a b : entry) : Prop :=
  seq_number (snd a) + len (data (snd a)) <= seq_number (snd b).

(** The send window holds, in order, segments of at most [mss] bytes that
    carry disjoint ranges of the bytes sent so far. *)
Definition send_window_ok (p : MyTCPProtocol) : Prop :=
  0 <= _sent_bytes_n p /\
  Forall keyed (_send_window p) /\
  StronglySorted range_before (_send_window p) /\
  Forall (fun e => 0 <= seq_number (snd e) /\
                   0 < len (data (snd e)) <= mss /\
                   seq_number (snd e) + len (data (snd e)) <= _sent_bytes_n p)
         (_send_window p).

(** A datagram handed to [sendto] has a whole header and at most [mss]
    payload bytes. *)
Definition datagram_fits (ev : Event) : Prop :=
  match ev with
  | EvSendto d _ _ => service_len <= len d <= mss + service_len
  | EvRecvfrom _ _ => True
  end.


(** The read side of [p] is that of [p0] with bytes appended: the read
    buffer has grown at its end by as many bytes as [received_bytes]. *)
Definition appended (p0 p : MyTCPProtocol) : Prop :=
  exists delivered,
    _buffer p = _buffer p0 ++ delivered /\
    _received_bytes_n p = _received_bytes_n p0 + len delivered.


(** The segment carries, at its [seq_number], bytes of [stream]. *)
Definition of_stream (stream : bytes) (s : TCPSegment) : Prop :=
  0 <= seq_number s /\
  data s = slice stream (seq_number s) (seq_number s + len (data s)).

(** Every datagram that arrives with a payload carries, once cut to the
    [mss + 16] bytes [recvfrom] asks for, bytes of the peer's [stream] at
    their offset; the network may lose, repeat and reorder them. *)
Definition peer_streams (stream : bytes) (env : Env) : Prop :=
  forall k d now,
    recvfrom_outcome env k = RecvDatagram d ->
    0 < len (data (load now (slice_to d (mss + service_len)))) ->
    of_stream stream (load now (slice_to d (mss + service_len))).

(** The bytes delivered so far are the first [received_bytes] bytes of
    [stream], and those not yet read are at the end of them, in the read
    buffer. *)
Definition delivered_in_order (stream : bytes) (p : MyTCPProtocol) : Prop :=
  0 <= _received_bytes_n p <= len stream /\
  exists consumed, consumed ++ _buffer p = slice_to stream (_received_bytes_n p).

(** The peer sends [abc] as the segments [ab] and [c]; the network
    delivers [c] first and [ab] twice. *)
Definition reordered : Env :=
  network [RecvDatagram (datagram 2 0 ["c"]%byte);
           RecvDatagram (datagram 0 0 ["a"; "b"]%byte);
           RecvDatagram (datagram 0 0 ["a"; "b"]%byte)]
          (fun k => Z.of_nat k * 3000).


(** The read side of [p'] is that of [p]: the same [received_bytes], the
    same read buffer, and a receive window with the same segments. *)
Definition read_side_kept (p p' : MyTCPProtocol) : Prop :=
  _received_bytes_n p' = _received_bytes_n p /\
  _buffer p' = _buffer p /\
  Permutation (_recv_window p') (_recv_window p).


(** A silent peer, seen when the clock already reads 20 ms; it advances
    1 us per reading. *)
Definition silent_late : Env := network [] (fun k => 20000 + Z.of_nat k).

(* ------------------------------------------------------------------ *)
(** ** The transmission that built a segment *)

(** The socket event [ev] is the first transmission of the segment with
    fields [seq] and [ack] and payload [payload]: a datagram that started at
    the endpoint's [sent_bytes] and acknowledged its [received_bytes], of
    which [sendto] accepted payload bytes, so that [_send_segment] put the
    segment into the send window; it carried [seq], [ack] and a payload that
    begins with [payload]. *)
Definition built_by (seq ack : Z) (payload : bytes) (ev : Event) : Prop :=
  match ev with
  | EvSendto d0 (SendReturns n0) p0 =>
      service_len < n0 /\
      wire_seq d0 = _sent_bytes_n p0 /\ wire_ack d0 = _received_bytes_n p0 /\
      wire_seq d0 = seq /\ wire_ack d0 = ack /\
      exists more, wire_payload d0 = payload ++ more
  | _ => False
  end.

(** Every segment of the send window was built by a transmission of the
    trace. *)
Definition window_built (p : MyTCPProtocol) (tr : list Event) : Prop :=
  Forall (fun e => Exists (built_by (seq_number (snd e)) (ack_number (snd e))
                                    (data (snd e))) tr)
         (_send_window p).

(** Every datagram of the trace (newest event first) either starts at
    [sent_bytes] and acknowledges [received_bytes], or starts below
    [sent_bytes] and repeats a segment built by an older transmission. *)
Fixpoint outgoing_as_built (tr : list Event) : Prop :=
  match tr with
  | [] => True
  | ev :: older =>
      match ev with
      | EvSendto d _ p =>
          (wire_seq d = _sent_bytes_n p /\ wire_ack d = _received_bytes_n p) \/
          (wire_seq d < _sent_bytes_n p /\ wire_ack d <= _received_bytes_n p /\
           Exists (built_by (wire_seq d) (wire_ack d) (wire_payload d)) older)
      | EvRecvfrom _ _ => True
      end /\ outgoing_as_built older
  end.

(** [ev] is a first transmission that put a segment into the send
    window. *)
Definition stores (ev : Event) : Prop :=
  match ev with
  | EvSendto d0 (SendReturns n0) p0 => service_len < n0 /\ wire_seq d0 = _sent_bytes_n p0
  | _ => False
  end.

(** The [seq] field of the datagram of a send event. *)
Definition event_seq (ev : Event) : Z :=
  match ev with
  | EvSendto d _ _ => wire_seq d
  | EvRecvfrom _ _ => 0
  end.

(** The storing transmissions of the trace started below [sent_bytes], and
    no two of them at the same [seq]. *)
Definition stored_once (p : MyTCPProtocol) (tr : list Event) : Prop :=
  Forall (fun ev => stores ev -> event_seq ev < _sent_bytes_n p) tr /\
  ForallOrdPairs (fun e1 e2 => stores e1 -> stores e2 -> event_seq e1 <> event_seq e2) tr.

Definition as_built (p : MyTCPProtocol) (tr : list Event) : Prop :=
  window_behind p /\ window_built p tr /\ outgoing_as_built tr /\ stored_once p tr.

(* ------------------------------------------------------------------ *)
(** ** [load], byte by byte *)

(** The unsigned big-endian value of a byte string, digit by digit: the
    first byte is the most significant one. *)
Fixpoint be_value (b : bytes) : Z :=
  match b with
  | [] => 0
  | x :: rest => byte_val x * 256 ^ len rest + be_value rest
  end.

(** [b[i]] for an index that is not negative; [None] is the [IndexError]
    of an index outside the bytes. *)
Definition getitem (b : bytes) (i : nat) : option byte := nth_error b i.

(** The [count] bytes of [b] from index [start] on, each read by its
    index. *)
Fixpoint read_bytes (b : bytes) (start count : nat) : option bytes :=
  match count with
  | O => Some []
  | S count' =>
      match getitem b start with
      | None => None
      | Some x =>
          match read_bytes b (S start) count' with
          | None => None
          | Some rest => Some (x :: rest)
          end
      end
  end.

(** [b[i:j]], [b[:j]] and [b[i:]] as the interpreter computes a slice: the
    bounds are moved into the bytes, then the bytes between them are
    read. *)
Definition getslice (b : bytes) (i j : Z) : option bytes :=
  read_bytes b (slice_index (len b) i) (slice_index (len b) j - slice_index (len b) i).

Definition getslice_to (b : bytes) (j : Z) : option bytes :=
  read_bytes b 0 (slice_index (len b) j).

Definition getslice_from (b : bytes) (i : Z) : option bytes :=
  read_bytes b (slice_index (len b) i) (length b - slice_index (len b) i).

(** [TCPSegment.load] with every read of a byte checked: [None] if one of
    the three slices reads outside [d]. *)
Definition load_checked (now : Z) (d : bytes) : option TCPSegment :=
  match getslice_to d 8 with
  | None => None
  | Some seq =>
      match getslice d 8 16 with
      | None => None
      | Some ack =>
          match getslice_from d service_len with
          | None => None
          | Some payload => Some (mkSegment (from_bytes seq) (from_bytes ack) payload now)
          end
      end
  end.

(* ================================================================== *)
(** * Properties *)

Arguments service_len : simpl never.
Arguments mss : simpl never.
Arguments window_size : simpl never.
Arguments ack_crit_lag : simpl never.
Arguments ack_timeout : simpl never.

(* ------------------------------------------------------------------ *)
(** ** Lengths and slices *)

Lemma len_nonneg {A : Type} (l : list A) : 0 <= len l.
Proof. unfold len. lia. Qed.

Lemma len_app {A : Type} (l1 l2 : list A) : len (l1 ++ l2) = len l1 + len l2.
Proof. unfold len. rewrite length_app. lia. Qed.

Lemma len_nil {A : Type} : len (@nil A) = 0.
Proof. reflexivity. Qed.

Lemma len_cons {A : Type} (x : A) (l : list A) : len (x :: l) = 1 + len l.
Proof. unfold len. simpl length. lia. Qed.

Lemma slice_index_nonneg (n i : Z) :
  0 <= i -> slice_index n i = Z.to_nat (Z.min n i).
Proof.
  intros Hi. unfold slice_index.
  destruct (Z.ltb_spec i 0) as [Hlt | _]; [lia |].
  lia.
Qed.

Lemma slice_to_firstn {A : Type} (l : list A) (k : Z) :
  0 <= k -> slice_to l k = firstn (Z.to_nat k) l.
Proof.
  intros Hk. unfold slice_to. rewrite slice_index_nonneg by assumption.
  destruct (Z.le_ge_cases k (len l)) as [Hle | Hge].
  - now rewrite Z.min_r.
  - rewrite Z.min_l by lia. unfold len in *.
    rewrite Nat2Z.id, firstn_all. symmetry. apply firstn_all2. lia.
Qed.

Lemma slice_from_skipn {A : Type} (l : list A) (k : Z) :
  0 <= k -> slice_from l k = skipn (Z.to_nat k) l.
Proof.
  intros Hk. unfold slice_from. rewrite slice_index_nonneg by assumption.
  destruct (Z.le_ge_cases k (len l)) as [Hle | Hge].
  - now rewrite Z.min_r.
  - rewrite Z.min_l by lia. unfold len in *.
    rewrite Nat2Z.id, skipn_all. symmetry. apply skipn_all2. lia.
Qed.

Lemma slice_firstn_skipn {A : Type} (l : list A) (i j : Z) :
  0 <= i <= j ->
  slice l i j = firstn (Z.to_nat (j - i)) (skipn (Z.to_nat i) l).
Proof.
  intros Hij. unfold slice. cbv zeta.
  rewrite !slice_index_nonneg by lia.
  destruct (Z.le_ge_cases j (len l)) as [Hj | Hj].
  - rewrite !Z.min_r by lia. f_equal. lia.
  - rewrite (Z.min_l _ j) by lia.
    destruct (Z.le_ge_cases i (len l)) as [Hi | Hi].
    + rewrite Z.min_r by lia.
      rewrite !firstn_all2; trivial; rewrite length_skipn; unfold len in *; lia.
    + rewrite Z.min_l by lia. unfold len in *. rewrite Nat2Z.id.
      rewrite skipn_all, (skipn_all2 (n := Z.to_nat i)) by lia.
      now rewrite !firstn_nil.
Qed.

Lemma len_slice_to_le {A : Type} (l : list A) (k : Z) :
  0 <= k -> len (slice_to l k) <= k.
Proof.
  intros Hk. rewrite slice_to_firstn by assumption.
  unfold len. rewrite length_firstn. lia.
Qed.

Lemma len_slice_to {A : Type} (l : list A) (k : Z) :
  0 <= k -> len (slice_to l k) = Z.min k (len l).
Proof.
  intros Hk. rewrite slice_to_firstn by assumption.
  unfold len. rewrite length_firstn. lia.
Qed.

Lemma len_slice_from {A : Type} (l : list A) (k : Z) :
  0 <= k -> len (slice_from l k) = Z.max 0 (len l - k).
Proof.
  intros Hk. rewrite slice_from_skipn by assumption.
  unfold len. rewrite length_skipn. lia.
Qed.

Lemma slice_to_from {A : Type} (l : list A) (k : Z) :
  slice_to l k ++ slice_from l k = l.
Proof. unfold slice_to, slice_from. apply firstn_skipn. Qed.

(* ------------------------------------------------------------------ *)
(** ** The integer codec *)

Lemma byte_val_range (b : byte) : 0 <= byte_val b < 256.
Proof.
  unfold byte_val. pose proof (Byte.to_N_bounded b). lia.
Qed.

Lemma byte_val_of_Z (z : Z) : byte_val (byte_of_Z z) = z mod 256.
Proof.
  unfold byte_val, byte_of_Z.
  pose proof (Z.mod_pos_bound z 256 ltac:(lia)) as Hm.
  destruct (Byte.of_N (Z.to_N (z mod 256))) as [b |] eqn:E.
  - apply Byte.to_of_N in E. lia.
  - apply Byte.of_N_None_iff in E. lia.
Qed.

Lemma byte_of_Z_val (b : byte) : byte_of_Z (byte_val b) = b.
Proof.
  unfold byte_of_Z. rewrite Z.mod_small by apply byte_val_range.
  unfold byte_val. rewrite N2Z.id, Byte.of_to_N. reflexivity.
Qed.

Lemma length_be_digits (n : nat) (z : Z) : length (be_digits n z) = n.
Proof.
  revert z. induction n as [| n IH]; intros z; simpl; trivial.
  rewrite length_app, IH. simpl. lia.
Qed.

Lemma from_bytes_snoc (l : bytes) (b : byte) :
  from_bytes (l ++ [b]) = from_bytes l * 256 + byte_val b.
Proof. unfold from_bytes. now rewrite fold_left_app. Qed.

Lemma from_bytes_be_digits (n : nat) (z : Z) :
  from_bytes (be_digits n z) = z mod 256 ^ Z.of_nat n.
Proof.
  revert z. induction n as [| n IH]; intros z.
  - simpl. now rewrite Z.mod_1_r.
  - cbn [be_digits]. rewrite from_bytes_snoc, IH, byte_val_of_Z.
    rewrite Nat2Z.inj_succ, Z.pow_succ_r by lia.
    assert (0 < 256 ^ Z.of_nat n) by (apply Z.pow_pos_nonneg; lia).
    rewrite Z.rem_mul_r by lia. lia.
Qed.

Lemma from_bytes_range (l : bytes) : 0 <= from_bytes l < 256 ^ len l.
Proof.
  induction l as [| b l IH] using rev_ind.
  - cbn. lia.
  - rewrite from_bytes_snoc, len_app.
    change (len [b]) with 1. rewrite Z.pow_add_r by (try apply len_nonneg; lia).
    pose proof (byte_val_range b). lia.
Qed.

Lemma to_bytes_Some (z : Z) (n : nat) :
  0 <= z < 256 ^ Z.of_nat n -> to_bytes z n = Some (be_digits n z).
Proof.
  intros [H0 H1]. unfold to_bytes.
  destruct (Z.leb_spec 0 z); [| lia].
  destruct (Z.ltb_spec z (256 ^ Z.of_nat n)); [reflexivity | lia].
Qed.

Lemma to_bytes_inv (z : Z) (n : nat) (b : bytes) :
  to_bytes z n = Some b -> 0 <= z < 256 ^ Z.of_nat n /\ b = be_digits n z.
Proof.
  unfold to_bytes.
  destruct (Z.leb_spec 0 z); simpl; [| discriminate].
  destruct (Z.ltb_spec z (256 ^ Z.of_nat n)); [| discriminate].
  intros [= <-]. auto.
Qed.

Lemma from_bytes_to_bytes (z : Z) (n : nat) (b : bytes) :
  to_bytes z n = Some b -> from_bytes b = z /\ length b = n.
Proof.
  intros H. apply to_bytes_inv in H as [Hz ->].
  rewrite from_bytes_be_digits, length_be_digits.
  split; [now apply Z.mod_small | reflexivity].
Qed.

(** The eight digits, most significant first. *)
Lemma be_digits_8 (z : Z) :
  be_digits 8 z =
  map (fun i => byte_of_Z (z / 256 ^ i)) [7; 6; 5; 4; 3; 2; 1; 0].
Proof.
  cbn [be_digits map app].
  rewrite !Z.div_div by lia.
  rewrite Z.div_1_r. reflexivity.
Qed.

(* ------------------------------------------------------------------ *)
(** ** The segment codec *)

Lemma dump_inv (s : TCPSegment) (d : bytes) :
  dump s = Some d ->
  0 <= seq_number s < 2 ^ 64 /\ 0 <= ack_number s < 2 ^ 64 /\
  d = be_digits 8 (seq_number s) ++ be_digits 8 (ack_number s) ++ data s.
Proof.
  unfold dump.
  destruct (to_bytes (seq_number s) 8) as [b1 |] eqn:E1; [| discriminate].
  destruct (to_bytes (ack_number s) 8) as [b2 |] eqn:E2; [| discriminate].
  intros [= <-].
  apply to_bytes_inv in E1 as [H1 ->]. apply to_bytes_inv in E2 as [H2 ->].
  auto.
Qed.

Lemma dump_Some (s : TCPSegment) :
  0 <= seq_number s < 2 ^ 64 -> 0 <= ack_number s < 2 ^ 64 ->
  dump s = Some (be_digits 8 (seq_number s) ++ be_digits 8 (ack_number s) ++ data s).
Proof.
  intros H1 H2. unfold dump.
  now rewrite !to_bytes_Some.
Qed.

Lemma len_dump (s : TCPSegment) (d : bytes) :
  dump s = Some d -> len d = service_len + len (data s).
Proof.
  intros H. apply dump_inv in H as (_ & _ & ->).
  rewrite !len_app. unfold len at 1 2. rewrite !length_be_digits.
  unfold service_len. lia.
Qed.

Lemma firstn_exact {A : Type} (l1 l2 : list A) (n : nat) :
  length l1 = n -> firstn n (l1 ++ l2) = l1.
Proof.
  intros <-. induction l1 as [| x l1 IH]; simpl; [reflexivity | now f_equal].
Qed.

Lemma skipn_exact {A : Type} (l1 l2 : list A) (n : nat) :
  length l1 = n -> skipn n (l1 ++ l2) = l2.
Proof. intros <-. induction l1 as [| x l1 IH]; simpl; trivial. Qed.

Lemma load_header (now : Z) (h1 h2 payload : bytes) :
  length h1 = 8%nat -> length h2 = 8%nat ->
  load now (h1 ++ h2 ++ payload) = mkSegment (from_bytes h1) (from_bytes h2) payload now.
Proof.
  intros L1 L2. unfold load.
  rewrite slice_to_firstn, slice_firstn_skipn, slice_from_skipn by (unfold service_len; lia).
  change (Z.to_nat 8) with 8%nat. change (Z.to_nat (16 - 8)) with 8%nat.
  change (Z.to_nat service_len) with (8 + 8)%nat.
  rewrite <- skipn_skipn.
  rewrite (firstn_exact h1), !(skipn_exact h1) by assumption.
  rewrite (firstn_exact h2), (skipn_exact h2) by assumption.
  reflexivity.
Qed.

Lemma load_dump (now : Z) (s : TCPSegment) (d : bytes) :
  dump s = Some d ->
  load now d = mkSegment (seq_number s) (ack_number s) (data s) now.
Proof.
  intros H. apply dump_inv in H as (H1 & H2 & ->).
  rewrite load_header by apply length_be_digits.
  rewrite !from_bytes_be_digits, !Z.mod_small by assumption.
  reflexivity.
Qed.

(** C9 — segment codec round-trip.  For a segment whose [seq_number] and
    [ack_number] are unsigned 64-bit values, [dump] succeeds and produces a
    header of exactly 16 bytes, the eight big-endian digits of [seq_number]
    followed by the eight big-endian digits of [ack_number], and then the
    payload; [load] of these bytes gives back the same [seq_number],
    [ack_number] and payload. *)
Theorem C9_codec_roundtrip (s : TCPSegment) (now : Z) :
  0 <= seq_number s < 2 ^ 64 ->
  0 <= ack_number s < 2 ^ 64 ->
  exists header : bytes,
    dump s = Some (header ++ data s) /\
    len header = 16 /\
    header =
      map (fun i => byte_of_Z (seq_number s / 256 ^ i)) [7; 6; 5; 4; 3; 2; 1; 0] ++
      map (fun i => byte_of_Z (ack_number s / 256 ^ i)) [7; 6; 5; 4; 3; 2; 1; 0] /\
    seq_number (load now (header ++ data s)) = seq_number s /\
    ack_number (load now (header ++ data s)) = ack_number s /\
    data (load now (header ++ data s)) = data s.
Proof.
  intros Hseq Hack.
  pose proof (dump_Some s Hseq Hack) as Hd.
  exists (be_digits 8 (seq_number s) ++ be_digits 8 (ack_number s)).
  rewrite <- app_assoc. split; [exact Hd |].
  split; [rewrite len_app; unfold len; now rewrite !length_be_digits |].
  split; [now rewrite !be_digits_8 |].
  rewrite (load_dump now s _ Hd). cbn. auto.
Qed.

Lemma C9_codec_roundtrip_witness :
  exists header : bytes,
    dump (mkSegment 1500 3000 ["h"; "i"]%byte 0) = Some (header ++ ["h"; "i"]%byte) /\
    len header = 16 /\
    header =
      map (fun i => byte_of_Z (1500 / 256 ^ i)) [7; 6; 5; 4; 3; 2; 1; 0] ++
      map (fun i => byte_of_Z (3000 / 256 ^ i)) [7; 6; 5; 4; 3; 2; 1; 0] /\
    seq_number (load 42 (header ++ ["h"; "i"]%byte)) = 1500 /\
    ack_number (load 42 (header ++ ["h"; "i"]%byte)) = 3000 /\
    data (load 42 (header ++ ["h"; "i"]%byte)) = ["h"; "i"]%byte.
Proof.
  apply (C9_codec_roundtrip (mkSegment 1500 3000 ["h"; "i"]%byte 0) 42); simpl; lia.
Defined.

Lemma from_bytes_leading_zeros (k : nat) (b : bytes) :
  from_bytes (repeat x00 k ++ b) = from_bytes b.
Proof.
  induction k as [| k IH]; [reflexivity |].
  rewrite <- IH. reflexivity.
Qed.

Lemma from_bytes_be_value (b : bytes) : from_bytes b = be_value b.
Proof.
  unfold from_bytes.
  assert (H : forall acc, fold_left (fun a x => a * 256 + byte_val x) b acc
                          = acc * 256 ^ len b + be_value b).
  { induction b as [| x b IH]; intros acc; cbn [fold_left be_value].
    - rewrite len_nil. cbn. lia.
    - rewrite IH, len_cons, Z.pow_add_r by (try apply len_nonneg; lia).
      change (256 ^ 1) with 256. lia. }
  rewrite H. lia.
Qed.

Lemma be_value_range (b : bytes) : 0 <= be_value b < 256 ^ len b.
Proof. rewrite <- from_bytes_be_value. apply from_bytes_range. Qed.

Lemma be_value_leading_zeros (k : nat) (b : bytes) :
  be_value (repeat x00 k ++ b) = be_value b.
Proof.
  induction k as [| k IH]; [reflexivity |].
  cbn [repeat app be_value]. rewrite IH. change (byte_val x00) with 0. lia.
Qed.

Lemma skipn_nth_error {A : Type} (l : list A) (n : nat) :
  (n < length l)%nat ->
  exists x, nth_error l n = Some x /\ skipn n l = x :: skipn (S n) l.
Proof.
  revert n. induction l as [| y l IH]; intros n Hn; cbn in Hn; [lia |].
  destruct n as [| n]; [now exists y |].
  apply IH. lia.
Qed.

Lemma read_bytes_ok (b : bytes) (start count : nat) :
  (start + count <= length b)%nat ->
  read_bytes b start count = Some (firstn count (skipn start b)).
Proof.
  revert start. induction count as [| count IH]; intros start H; [reflexivity |].
  cbn [read_bytes]. unfold getitem.
  destruct (skipn_nth_error b start) as (x & -> & ->); [lia |].
  rewrite IH by lia. reflexivity.
Qed.

Lemma read_bytes_outside (b : bytes) (start count : nat) :
  (0 < count)%nat -> (length b < start + count)%nat -> read_bytes b start count = None.
Proof.
  revert start. induction count as [| count IH]; intros start H0 H; [lia |].
  cbn [read_bytes]. unfold getitem.
  destruct (nth_error b start) as [x |] eqn:E; [| reflexivity].
  assert (start < length b)%nat by (apply nth_error_Some; congruence).
  rewrite IH; [reflexivity | lia | lia].
Qed.

Lemma slice_index_le (b : bytes) (i : Z) : (slice_index (len b) i <= length b)%nat.
Proof. unfold slice_index, len. lia. Qed.

Lemma load_checked_load (now : Z) (d : bytes) : load_checked now d = Some (load now d).
Proof.
  pose proof (slice_index_le d 8) as H8.
  pose proof (slice_index_le d 16) as H16.
  pose proof (slice_index_le d service_len) as Hs.
  unfold load_checked, getslice_to, getslice, getslice_from.
  rewrite !read_bytes_ok by lia.
  unfold load, slice_to, slice_from, slice. cbv zeta.
  rewrite (firstn_all2 (n := length d - slice_index (len d) service_len))
    by (rewrite length_skipn; lia).
  reflexivity.
Qed.

(** C10 — [TCPSegment.load] is total.  On every byte string, of any length,
    none of the three slices of [load] reads outside the bytes, so the call
    completes without an exception, and without touching the endpoint
    (reading sixteen bytes from fewer than sixteen would fail).
    [seq_number] is the big-endian value of the bytes that exist among the
    first eight, [ack_number] that of the bytes that exist among the next
    eight, an absent byte counting as a leading zero: a header of [k < 8]
    bytes decodes to a [seq_number] below [256 ^ k] and to [ack_number] 0,
    the empty input to 0 and 0.  The payload is what follows the sixteenth
    byte: empty for every input of at most 16 bytes. *)
Theorem C10_load_total (env : Env) (d : bytes) (w : World) :
  let s := load (time_reading env (time_calls w)) d in
  (exists w', TCPSegment_load env d w = Ret s w' /\ self w' = self w) /\
  seq_number s = from_bytes (firstn 8 d) /\
  ack_number s = from_bytes (firstn 8 (skipn 8 d)) /\
  data s = skipn 16 d /\
  seq_number s = from_bytes (repeat x00 (8 - length (firstn 8 d)) ++ firstn 8 d) /\
  ack_number s =
    from_bytes (repeat x00 (8 - length (firstn 8 (skipn 8 d))) ++ firstn 8 (skipn 8 d)) /\
  len (data s) = Z.max 0 (len d - 16) /\
  data (load 0 (firstn 16 d)) = [] /\
  ack_number (load 0 (firstn 8 d)) = 0 /\
  seq_number (load 0 []) = 0 /\
  load_checked (time_reading env (time_calls w)) d = Some s /\
  read_bytes (firstn 15 d) 0 16 = None /\
  seq_number s = be_value (firstn 8 d) /\
  ack_number s = be_value (firstn 8 (skipn 8 d)) /\
  seq_number s = be_value (repeat x00 (8 - length (firstn 8 d)) ++ firstn 8 d) /\
  ack_number s =
    be_value (repeat x00 (8 - length (firstn 8 (skipn 8 d))) ++ firstn 8 (skipn 8 d)) /\
  0 <= seq_number s < 256 ^ Z.min 8 (len d) /\
  0 <= ack_number s < 256 ^ Z.max 0 (Z.min 8 (len d - 8)).
Proof.
  cbv zeta.
  assert (Hseq : forall now x, seq_number (load now x) = from_bytes (firstn 8 x)).
  { intros. unfold load. cbn [seq_number]. now rewrite slice_to_firstn by lia. }
  assert (Hack : forall now x, ack_number (load now x) = from_bytes (firstn 8 (skipn 8 x))).
  { intros. unfold load. cbn [ack_number]. now rewrite slice_firstn_skipn by lia. }
  assert (Hdat : forall now x, data (load now x) = skipn 16 x).
  { intros. unfold load. cbn [data]. now rewrite slice_from_skipn by (unfold service_len; lia). }
  split; [eexists; split; reflexivity |].
  rewrite !from_bytes_leading_zeros, !be_value_leading_zeros, !Hseq, !Hack, !Hdat.
  rewrite <- !from_bytes_be_value.
  repeat split.
  - unfold len. rewrite length_skipn. lia.
  - apply skipn_all2. rewrite length_firstn. lia.
  - rewrite skipn_all2 by (rewrite length_firstn; lia). reflexivity.
  - apply load_checked_load.
  - apply read_bytes_outside; [lia | rewrite length_firstn; lia].
  - apply from_bytes_range.
  - replace (Z.min 8 (len d)) with (len (firstn 8 d))
      by (unfold len; rewrite length_firstn; lia).
    apply from_bytes_range.
  - apply from_bytes_range.
  - replace (Z.max 0 (Z.min 8 (len d - 8))) with (len (firstn 8 (skipn 8 d)))
      by (unfold len; rewrite length_firstn, length_skipn; lia).
    apply from_bytes_range.
Qed.

(* ------------------------------------------------------------------ *)
(** ** The priority queue *)

Lemma entry_lt_le (a b : entry) : entry_lt a b = true -> fst a <= fst b.
Proof. unfold entry_lt. lia. Qed.

Lemma entry_not_lt_ge (a b : entry) : entry_lt a b = false -> fst b <= fst a.
Proof. unfold entry_lt. lia. Qed.

Lemma put_perm (e : entry) (q : PriorityQueue) : Permutation (put e q) (e :: q).
Proof.
  induction q as [| h t IH]; simpl; [reflexivity |].
  destruct (entry_lt e h); [reflexivity |].
  rewrite IH. apply perm_swap.
Qed.

Lemma put_In (e x : entry) (q : PriorityQueue) : In x (put e q) <-> x = e \/ In x q.
Proof.
  split; intros H.
  - apply (Permutation_in _ (put_perm e q)) in H. destruct H; auto.
  - apply (Permutation_in _ (Permutation_sym (put_perm e q))).
    destruct H; [left | right]; auto.
Qed.

Lemma put_Forall (P : entry -> Prop) (e : entry) (q : PriorityQueue) :
  P e -> Forall P q -> Forall P (put e q).
Proof.
  intros He Hq. apply Forall_forall. intros x Hx.
  apply put_In in Hx as [-> | Hx]; [assumption |].
  revert x Hx. now apply Forall_forall.
Qed.

Lemma put_sorted (e : entry) (q : PriorityQueue) :
  StronglySorted (fun a b => fst a <= fst b) q ->
  StronglySorted (fun a b => fst a <= fst b) (put e q).
Proof.
  induction 1 as [| h t Ht IH Hh]; simpl.
  - repeat constructor.
  - destruct (entry_lt e h) eqn:E.
    + apply entry_lt_le in E. constructor.
      * now constructor.
      * constructor; [assumption |].
        eapply Forall_impl; [| exact Hh]. cbn. intros; lia.
    + apply entry_not_lt_ge in E. constructor; [assumption |].
      apply put_Forall; assumption.
Qed.

Lemma put_ok (e : entry) (q : PriorityQueue) :
  keyed e -> pq_ok q -> pq_ok (put e q).
Proof.
  intros He [Hk Hs]. split; [now apply put_Forall | now apply put_sorted].
Qed.

Lemma pq_ok_tail (e : entry) (q : PriorityQueue) : pq_ok (e :: q) -> pq_ok q.
Proof.
  intros [Hk Hs]. inversion Hk; inversion Hs; subst. now split.
Qed.

(** The head of a queue is a segment of lowest [seq]. *)
Lemma head_lowest_seq (e : entry) (q : PriorityQueue) :
  pq_ok (e :: q) -> lowest_seq e (e :: q).
Proof.
  intros [Hk Hs]. split; [now left |].
  inversion Hs as [| ? ? _ Hle]; subst.
  rewrite Forall_forall in Hk, Hle.
  apply Forall_forall. intros x [<- | Hx]; [lia |].
  rewrite <- (Hk e), <- (Hk x) by (simpl; auto). now apply Hle.
Qed.

Lemma prune_send_window_incl (c : Z) (q : PriorityQueue) (x : entry) :
  In x (prune_send_window c q) -> In x q.
Proof.
  induction q as [| [k s] t IH]; simpl; [trivial |].
  destruct (k <? c); [right; auto | trivial].
Qed.

Lemma prune_send_window_Forall (P : entry -> Prop) (c : Z) (q : PriorityQueue) :
  Forall P q -> Forall P (prune_send_window c q).
Proof.
  rewrite !Forall_forall. intros H x Hx. eapply H, prune_send_window_incl, Hx.
Qed.

(* ------------------------------------------------------------------ *)
(** ** Receive-window reassembly *)

Lemma drain_recv_window_spec (q : PriorityQueue) (received : Z) (buffer : bytes) :
  pq_ok q ->
  let '(q', received', buffer') := drain_recv_window q received buffer in
  reassembly q received buffer q' received' buffer' /\
  pq_ok q' /\
  Forall (fun e => received' < seq_number (snd e)) q' /\
  received <= received' /\
  (exists delivered, buffer' = buffer ++ delivered /\ received' = received + len delivered).
Proof.
  revert received buffer.
  induction q as [| [k s] q IH]; intros received buffer Hok.
  - simpl. split; [constructor |]. split; [assumption |].
    split; [constructor |]. split; [lia |].
    exists []. split; [now rewrite app_nil_r | cbn; lia].
  - pose proof (head_lowest_seq _ _ Hok) as Hlow.
    pose proof (pq_ok_tail _ _ Hok) as Htl.
    cbn [drain_recv_window].
    destruct (Z.eqb_spec (seq_number s) received) as [Heq | Hne].
    + specialize (IH (received + len (data s)) (buffer ++ data s) Htl).
      destruct (drain_recv_window q _ _) as [[q' r'] b'].
      destruct IH as (Hre & Hq' & Hgt & Hle & dl & -> & ->).
      pose proof (len_nonneg (data s)).
      refine (conj _ (conj Hq' (conj Hgt (conj _ _)))); [| lia |].
      * eapply reassembly_in_order; eauto.
      * exists (data s ++ dl). rewrite len_app, app_assoc. split; [reflexivity | lia].
    + destruct (Z.gtb_spec (seq_number s) received) as [Hgt | Hle].
      * assert (Hput : pq_ok (put (k, s) q)).
        { apply put_ok; [| assumption]. destruct Hok as [Hk _]. now inversion Hk. }
        refine (conj _ (conj Hput (conj _ (conj _ _)))); [| | lia |].
        -- eapply reassembly_gap; [exact Hlow | | simpl; lia].
           symmetry. apply put_perm.
        -- destruct Hlow as [_ Hall].
           apply Forall_forall. intros x Hx.
           apply (Permutation_in _ (put_perm (k, s) q)) in Hx.
           rewrite Forall_forall in Hall. specialize (Hall x Hx). simpl in Hall. lia.
        -- exists []. split; [now rewrite app_nil_r | cbn; lia].
      * specialize (IH received buffer Htl).
        destruct (drain_recv_window q _ _) as [[q' r'] b'].
        destruct IH as (Hre & Hq' & Hgt & Hle' & Hdl).
        refine (conj _ (conj Hq' (conj Hgt (conj Hle' Hdl)))).
        eapply reassembly_duplicate; eauto. simpl. lia.
Qed.

(** C6 — receive-window reassembly.  On a receive window kept in key
    order, [_process_recv_window] completes, touches neither the socket
    nor the sender's fields, and drains the window as the specification
    says: it repeatedly takes a segment of lowest [seq]; if that [seq]
    equals [received_bytes] the payload is appended to the read buffer and
    [received_bytes] advances by the payload's length; if it exceeds
    [received_bytes] the segment is put back and draining stops; if it is
    below [received_bytes] the segment is dropped and neither the counter
    nor the buffer changes.  Afterwards every segment left in the window
    has [seq > received_bytes]. *)
Theorem C6_receive_window_reassembly (w : World) :
  pq_ok (_recv_window (self w)) ->
  exists w',
    _process_recv_window w = Ret tt w' /\
    trace w' = trace w /\
    reassembly (_recv_window (self w)) (_received_bytes_n (self w)) (_buffer (self w))
               (_recv_window (self w')) (_received_bytes_n (self w')) (_buffer (self w')) /\
    pq_ok (_recv_window (self w')) /\
    Forall (fun e => _received_bytes_n (self w') < seq_number (snd e))
           (_recv_window (self w')) /\
    _sent_bytes_n (self w') = _sent_bytes_n (self w) /\
    _confirmed_bytes_n (self w') = _confirmed_bytes_n (self w) /\
    _send_window (self w') = _send_window (self w).
Proof.
  intros Hok. eexists. split; [reflexivity |]. cbn.
  pose proof (drain_recv_window_spec _ (_received_bytes_n (self w)) (_buffer (self w)) Hok) as H.
  unfold process_recv_window.
  destruct (drain_recv_window _ _ _) as [[q' r'] b']. cbn.
  destruct H as (H1 & H2 & H3 & _). auto 10.
Qed.

Lemma C6_receive_window_reassembly_witness :
  exists w',
    _process_recv_window gapped_world = Ret tt w' /\
    trace w' = trace gapped_world /\
    reassembly (_recv_window (self gapped_world)) (_received_bytes_n (self gapped_world))
               (_buffer (self gapped_world))
               (_recv_window (self w')) (_received_bytes_n (self w')) (_buffer (self w')) /\
    pq_ok (_recv_window (self w')) /\
    Forall (fun e => _received_bytes_n (self w') < seq_number (snd e))
           (_recv_window (self w')) /\
    _sent_bytes_n (self w') = _sent_bytes_n (self gapped_world) /\
    _confirmed_bytes_n (self w') = _confirmed_bytes_n (self gapped_world) /\
    _send_window (self w') = _send_window (self gapped_world).
Proof.
  apply (C6_receive_window_reassembly gapped_world).
  split; repeat constructor; cbn; lia.
Defined.

(* ------------------------------------------------------------------ *)
(** ** Rules for [post] *)

Lemma post_bind {A B : Type} (m : M A) (k : A -> M B) (w : World)
  (Q : B -> World -> Prop) (X : World -> Prop) :
  post (m w) (fun a w' => post (k a w') Q X) X -> post (bind m k w) Q X.
Proof. unfold bind. destruct (m w); trivial. Qed.

Lemma post_weaken {A : Type} (r : Result A)
  (Q Q' : A -> World -> Prop) (X X' : World -> Prop) :
  post r Q X -> (forall a w, Q a w -> Q' a w) -> (forall w, X w -> X' w) ->
  post r Q' X'.
Proof. destruct r; cbn; auto. Qed.

Lemma post_final {A : Type} (r : Result A) (X : World -> Prop) :
  post r (fun _ w => X w) X <-> X (final_world r).
Proof. destruct r; cbn; tauto. Qed.

(** The world in which [sendto] has answered. *)
Lemma _send_segment_post (env : Env) (segment : TCPSegment) (w : World)
  (Q : Z -> World -> Prop) (X : World -> Prop) :
  (dump segment = None ->
   X (mkWorld (self w) None (recv_calls w) (send_calls w) (time_calls w) (trace w))) ->
  (forall d, dump segment = Some d ->
             sendto_outcome env (send_calls w) d = SendError ->
             X (mkWorld (self w) None (recv_calls w) (S (send_calls w)) (time_calls w)
                        (EvSendto d SendError (self w) :: trace w))) ->
  (forall d n, dump segment = Some d ->
               sendto_outcome env (send_calls w) d = SendReturns n ->
               Q (n - service_len)
                 (mkWorld (send_effect segment n (time_reading env (time_calls w)) (self w))
                          None (recv_calls w) (S (send_calls w))
                          (if n - service_len >? 0 then S (time_calls w) else time_calls w)
                          (EvSendto d (SendReturns n) (self w) :: trace w))) ->
  post (_send_segment env segment w) Q X.
Proof.
  intros Hnone Herr Hret.
  unfold _send_segment, TCPSegment_dump, send_effect.
  apply post_bind. cbn.
  destruct (dump segment) as [d |] eqn:Ed; [| cbn; auto].
  apply post_bind. cbn. apply post_bind. unfold sendto. cbn.
  destruct (sendto_outcome env (send_calls w) d) as [| n] eqn:Es; cbn; [now apply Herr |].
  specialize (Hret d n eq_refl Es).
  unfold send_effect in Hret.
  destruct (seq_number segment =? _sent_bytes_n (self w));
    destruct (n - service_len >? 0); cbn; exact Hret.
Qed.

Lemma send_loop_eq (env : Env) (fuel : nat) (l : SendLocals) (w : World) :
  send_loop env fuel l w =
  if send_continues (self w) l then
    match fuel with
    | O => OutOfFuel w
    | S fuel' => bind (send_iteration env l) (send_loop env fuel') w
    end
  else Ret l w.
Proof. destruct fuel; reflexivity. Qed.

Lemma recv_loop_eq (env : Env) (fuel : nat) (n : Z) (d : bytes) (w : World) :
  recv_loop env fuel n d w =
  if len d <? n then
    match fuel with
    | O => OutOfFuel w
    | S fuel' =>
        bind (_receive_segment env None)
             (fun ok : bool =>
                if negb ok then ret d
                else
                  bind get_self (fun p =>
                    bind (modify_self
                            (set_buffer
                               (slice_from (_buffer p)
                                           (len (slice_to (_buffer p) (n - len d))))))
                         (fun _ => recv_loop env fuel' n
                                     (d ++ slice_to (_buffer p) (n - len d))))) w
    end
  else Ret d w.
Proof. destruct fuel; cbn [recv_loop]; destruct (len d <? n); reflexivity. Qed.

Arguments _send_segment : simpl never.
Arguments receive_attempt : simpl never.
Arguments load : simpl never.
Arguments slice_to : simpl never.
Arguments slice_from : simpl never.
Arguments slice : simpl never.
Arguments len : simpl never.
Arguments _receive_segment : simpl never.
Arguments _resend_earliest_segment : simpl never.
Arguments send_iteration : simpl never.
Arguments send_loop : simpl never.
Arguments recv_loop : simpl never.
Arguments process_recv_window : simpl never.
Arguments send_effect : simpl never.

Lemma receive_attempt_eq (env : Env) (w : World) :
  receive_attempt env w =
  let w' r := mkWorld (self w) (udp_timeout w) (S (recv_calls w)) (send_calls w)
                      (time_calls w) (EvRecvfrom (udp_timeout w) r :: trace w) in
  match recvfrom_outcome env (recv_calls w) with
  | RecvDatagram d =>
      Ret (Some (load (time_reading env (time_calls w)) (slice_to d (mss + service_len))))
          (mkWorld (self w) (udp_timeout w) (S (recv_calls w)) (send_calls w)
                   (S (time_calls w))
                   (EvRecvfrom (udp_timeout w) (RecvDatagram d) :: trace w))
  | r => Ret None (w' r)
  end.
Proof.
  unfold receive_attempt, try_except_socket, bind, recvfrom.
  destruct (recvfrom_outcome env (recv_calls w)); reflexivity.
Qed.

(** Stepping through the sequential composition of a call under [post]. *)
Ltac mbind :=
  cbn;
  repeat (lazymatch goal with
          | |- post (bind _ _ _) _ _ => apply post_bind; cbn
          end).

(* ------------------------------------------------------------------ *)
(** ** An invariant principle for the endpoint

    A property [I] of the endpoint's fields and of its socket trace that
    is kept by the elementary updates below is kept by every method, at
    every point where a call can be observed: on return, when an
    exception leaves it, and at the head of each loop iteration. *)

Section InvariantPrinciple.

Variable env : Env.
Variable I : MyTCPProtocol -> list Event -> Prop.

(** the timeouts with which the receive attempts are made *)
Variable T : option Z -> Prop.

(** a receive attempt was made *)
Hypothesis I_recvfrom : forall p tr t r,
  T t -> I p tr -> I p (EvRecvfrom t r :: tr).

(** the head of the send window was taken out *)
Hypothesis I_pop : forall p tr e rest,
  I p tr -> _send_window p = e :: rest -> I (set_send_window rest p) tr.

(** the head of the send window was taken out and handed to [sendto] *)
Hypothesis I_resend : forall p tr k s rest d r j now,
  I p tr -> _send_window p = (k, s) :: rest ->
  dump s = Some d -> sendto_outcome env j d = r ->
  I (match r with
     | SendError => set_send_window rest p
     | SendReturns n => send_effect s n now (set_send_window rest p)
     end)
    (EvSendto d r (set_send_window rest p) :: tr).

(** a pure acknowledgment built from the current counters was handed to
    [sendto] *)
Hypothesis I_send_ack : forall p tr t0 d r j now,
  I p tr ->
  dump (mkSegment (_sent_bytes_n p) (_received_bytes_n p) [] t0) = Some d ->
  sendto_outcome env j d = r ->
  I (match r with
     | SendError => p
     | SendReturns n =>
         send_effect (mkSegment (_sent_bytes_n p) (_received_bytes_n p) [] t0) n now p
     end)
    (EvSendto d r p :: tr).

(** a data segment built from the current counters was handed to
    [sendto] *)
Hypothesis I_send_data : forall p tr payload t0 d r j now,
  I p tr ->
  dump (mkSegment (_sent_bytes_n p) (_received_bytes_n p) payload t0) = Some d ->
  sendto_outcome env j d = r ->
  I (match r with
     | SendError => p
     | SendReturns n =>
         send_effect (mkSegment (_sent_bytes_n p) (_received_bytes_n p) payload t0) n now p
     end)
    (EvSendto d r p :: tr).

(** an arrived data segment was queued and the receive window drained *)
Hypothesis I_deliver : forall p tr s,
  I p tr ->
  I (process_recv_window
       (set_recv_window (put (seq_number s, s) (_recv_window p)) p)) tr.

(** the peer's acknowledgment was stored and the send window pruned *)
Hypothesis I_confirm : forall p tr a,
  I p tr ->
  I (set_send_window (prune_send_window a (_send_window p))
                     (set_confirmed_bytes_n a p)) tr.

(** [recv] took bytes out of the read buffer *)
Hypothesis I_buffer : forall p tr b, I p tr -> I (set_buffer b p) tr.

Lemma holds_send_ack (w : World) (segment : TCPSegment) :
  seq_number segment = _sent_bytes_n (self w) ->
  ack_number segment = _received_bytes_n (self w) ->
  data segment = [] ->
  holds I w ->
  post (_send_segment env segment w) (fun _ w' => holds I w') (holds I).
Proof.
  destruct segment as [sq ak payload t0]. cbn. intros Hs Ha Hp H. subst sq ak payload.
  apply _send_segment_post; unfold holds; cbn.
  - intros _. exact H.
  - intros d Hd Hs. exact (I_send_ack _ _ _ _ _ _ 0 H Hd Hs).
  - intros d n Hd Hs. exact (I_send_ack _ _ _ _ _ _ _ H Hd Hs).
Qed.

Lemma holds_send_data (w : World) (segment : TCPSegment) :
  seq_number segment = _sent_bytes_n (self w) ->
  ack_number segment = _received_bytes_n (self w) ->
  holds I w ->
  post (_send_segment env segment w) (fun _ w' => holds I w') (holds I).
Proof.
  destruct segment as [sq ak payload t0]. cbn. intros Hs Ha H. subst sq ak.
  apply _send_segment_post; unfold holds; cbn.
  - intros _. exact H.
  - intros d Hd Hs. exact (I_send_data _ _ _ _ _ _ _ 0 H Hd Hs).
  - intros d n Hd Hs. exact (I_send_data _ _ _ _ _ _ _ _ H Hd Hs).
Qed.

Lemma holds_resend (w : World) :
  holds I w -> post (_resend_earliest_segment env w) (fun _ w' => holds I w') (holds I).
Proof.
  intros H. unfold _resend_earliest_segment. cbn.
  destruct (_send_window (self w)) as [| [k s] rest] eqn:Ew; cbn; [exact H |].
  destruct (expired _ s); cbn; [| exact H].
  apply post_bind.
  apply (post_weaken _ (fun _ w' => holds I w') _ (holds I));
    [apply _send_segment_post; unfold holds; cbn | cbn; trivial | trivial].
  - intros _. exact (I_pop _ _ _ _ H Ew).
  - intros d Hd Hs. exact (I_resend _ _ _ _ _ _ _ _ 0 H Ew Hd Hs).
  - intros d n Hd Hs. exact (I_resend _ _ _ _ _ _ _ _ _ H Ew Hd Hs).
Qed.

Lemma holds_receive (timeout : option Z) (w : World) :
  T timeout ->
  holds I w -> post (_receive_segment env timeout w) (fun _ w' => holds I w') (holds I).
Proof.
  intros Ht H. unfold _receive_segment. cbn.
  apply post_bind. rewrite receive_attempt_eq. cbn.
  destruct (recvfrom_outcome env (recv_calls w)) as [| | d] eqn:Er; cbn;
    try (apply I_recvfrom; [exact Ht | exact H]).
  destruct (len (data _) >? 0); mbind.
  - eapply post_weaken; [apply holds_send_ack; try reflexivity | | trivial].
    + unfold holds. cbn. apply I_deliver, I_recvfrom; [exact Ht | exact H].
    + cbn. intros _ w' Hw'. apply I_confirm, Hw'.
  - apply I_confirm, I_recvfrom; [exact Ht | exact H].
Qed.

(** [send] waits [ack_timeout] for a datagram; [recv] waits without a
    limit. *)
Hypothesis T_send : T (Some ack_timeout).
Hypothesis T_recv : T None.

Lemma holds_send_iteration (l : SendLocals) (w : World) :
  holds I w -> post (send_iteration env l w) (fun _ w' => holds I w') (holds I).
Proof.
  intros H. unfold send_iteration. mbind.
  destruct (negb _ && truthy _); mbind.
  - eapply post_weaken; [apply holds_send_data; try reflexivity; exact H | | trivial].
    cbn. intros sent_length w' Hw'. mbind.
    eapply post_weaken; [apply holds_resend; exact Hw' | cbn; trivial | trivial].
  - eapply post_weaken; [apply holds_receive; [exact T_send | exact H] | | trivial].
    cbn. intros ok w' Hw'. mbind.
    eapply post_weaken; [apply holds_resend; exact Hw' | cbn; trivial | trivial].
Qed.

Lemma holds_send_loop (fuel : nat) (l : SendLocals) (w : World) :
  holds I w -> post (send_loop env fuel l w) (fun _ w' => holds I w') (holds I).
Proof.
  revert l w. induction fuel as [| fuel IH]; intros l w H;
    rewrite send_loop_eq; destruct (send_continues (self w) l); cbn; trivial.
  apply post_bind.
  eapply post_weaken; [apply holds_send_iteration; exact H | | trivial].
  cbn. intros l' w' Hw'. now apply IH.
Qed.

Lemma holds_send (fuel : nat) (d : bytes) (w : World) :
  holds I w -> holds I (final_world (send env fuel d w)).
Proof.
  intros H. apply post_final. unfold send. apply post_bind.
  eapply post_weaken; [apply holds_send_loop; exact H | cbn; trivial | trivial].
Qed.

Lemma holds_recv_loop (fuel : nat) (n : Z) (d : bytes) (w : World) :
  holds I w -> post (recv_loop env fuel n d w) (fun _ w' => holds I w') (holds I).
Proof.
  revert d w. induction fuel as [| fuel IH]; intros d w H;
    rewrite recv_loop_eq; destruct (len d <? n); cbn; trivial.
  apply post_bind.
  eapply post_weaken; [apply holds_receive; [exact T_recv | exact H] | | trivial].
  cbn. intros ok w' Hw'. destruct ok; cbn; [| exact Hw'].
  apply IH. unfold holds. cbn. apply I_buffer, Hw'.
Qed.

Lemma holds_recv (fuel : nat) (n : Z) (w : World) :
  holds I w -> holds I (final_world (recv env fuel n w)).
Proof.
  intros H. apply post_final. unfold recv. mbind.
  apply holds_recv_loop. unfold holds. cbn. apply I_buffer, H.
Qed.

End InvariantPrinciple.

Theorem invariant_reachable (env : Env) (I : MyTCPProtocol -> list Event -> Prop) :
  (forall p tr t r, I p tr -> I p (EvRecvfrom t r :: tr)) ->
  (forall p tr e rest,
      I p tr -> _send_window p = e :: rest -> I (set_send_window rest p) tr) ->
  (forall p tr k s rest d r j now,
      I p tr -> _send_window p = (k, s) :: rest ->
      dump s = Some d -> sendto_outcome env j d = r ->
      I (match r with
         | SendError => set_send_window rest p
         | SendReturns n => send_effect s n now (set_send_window rest p)
         end)
        (EvSendto d r (set_send_window rest p) :: tr)) ->
  (forall p tr payload t0 d r j now,
      I p tr ->
      dump (mkSegment (_sent_bytes_n p) (_received_bytes_n p) payload t0) = Some d ->
      sendto_outcome env j d = r ->
      I (match r with
         | SendError => p
         | SendReturns n =>
             send_effect (mkSegment (_sent_bytes_n p) (_received_bytes_n p) payload t0)
                         n now p
         end)
        (EvSendto d r p :: tr)) ->
  (forall p tr s,
      I p tr ->
      I (process_recv_window
           (set_recv_window (put (seq_number s, s) (_recv_window p)) p)) tr) ->
  (forall p tr a,
      I p tr ->
      I (set_send_window (prune_send_window a (_send_window p))
                         (set_confirmed_bytes_n a p)) tr) ->
  (forall p tr b, I p tr -> I (set_buffer b p) tr) ->
  I init [] ->
  forall w, reachable env w -> I (self w) (trace w).
Proof.
  intros H1 H2 H3 H4 H5 H6 H7 H0 w Hw.
  induction Hw as [| w fuel d _ IH | w fuel n _ IH].
  - exact H0.
  - change (holds I (final_world (send env fuel d w))).
    apply (holds_send env I (fun _ => True)); auto. intros; eapply H4; eassumption.
  - change (holds I (final_world (recv env fuel n w))).
    apply (holds_recv env I (fun _ => True)); auto. intros; eapply H4; eassumption.
Qed.

(* ------------------------------------------------------------------ *)
(** ** What [_send_segment] and [_process_recv_window] change *)

Lemma send_effect_window (s : TCPSegment) (n now : Z) (p : MyTCPProtocol) :
  _send_window (send_effect s n now p) =
  if n - service_len >? 0
  then put (seq_number s,
            mkSegment (seq_number s) (ack_number s)
                      (slice_to (data s) (n - service_len)) now)
           (_send_window p)
  else _send_window p.
Proof.
  unfold send_effect.
  destruct (seq_number s =? _sent_bytes_n p); destruct (n - service_len >? 0); reflexivity.
Qed.

Lemma send_effect_sent (s : TCPSegment) (n now : Z) (p : MyTCPProtocol) :
  _sent_bytes_n (send_effect s n now p) =
  if seq_number s =? _sent_bytes_n p
  then _sent_bytes_n p + (n - service_len)
  else _sent_bytes_n p.
Proof.
  unfold send_effect.
  destruct (seq_number s =? _sent_bytes_n p); destruct (n - service_len >? 0); reflexivity.
Qed.

Lemma send_effect_other (s : TCPSegment) (n now : Z) (p : MyTCPProtocol) :
  _confirmed_bytes_n (send_effect s n now p) = _confirmed_bytes_n p /\
  _received_bytes_n (send_effect s n now p) = _received_bytes_n p /\
  _recv_window (send_effect s n now p) = _recv_window p /\
  _buffer (send_effect s n now p) = _buffer p.
Proof.
  unfold send_effect.
  destruct (seq_number s =? _sent_bytes_n p); destruct (n - service_len >? 0); cbn; auto.
Qed.

Lemma process_recv_window_other (p : MyTCPProtocol) :
  _sent_bytes_n (process_recv_window p) = _sent_bytes_n p /\
  _confirmed_bytes_n (process_recv_window p) = _confirmed_bytes_n p /\
  _send_window (process_recv_window p) = _send_window p.
Proof.
  unfold process_recv_window.
  destruct (drain_recv_window _ _ _) as [[q r] b]. cbn. auto.
Qed.

Lemma drain_recv_window_mono (q : PriorityQueue) (received : Z) (buffer : bytes) :
  received <= snd (fst (drain_recv_window q received buffer)).
Proof.
  revert received buffer. induction q as [| [k s] q IH]; intros received buffer; cbn.
  - lia.
  - destruct (seq_number s =? received).
    + specialize (IH (received + len (data s)) (buffer ++ data s)).
      pose proof (len_nonneg (data s)). lia.
    + destruct (seq_number s >? received); cbn; [lia | apply IH].
Qed.

Lemma process_recv_window_received (p : MyTCPProtocol) :
  _received_bytes_n p <= _received_bytes_n (process_recv_window p).
Proof.
  unfold process_recv_window.
  pose proof (drain_recv_window_mono (_recv_window p) (_received_bytes_n p) (_buffer p)) as H.
  destruct (drain_recv_window _ _ _) as [[q r] b]. exact H.
Qed.

Lemma post_Ret {A : Type} (r : Result A) (Q : A -> World -> Prop) (X : World -> Prop)
  (a : A) (w : World) :
  post r Q X -> r = Ret a w -> Q a w.
Proof. intros H ->. exact H. Qed.

Lemma _send_segment_Ret (env : Env) (segment : TCPSegment) (w w' : World) (a : Z) :
  _send_segment env segment w = Ret a w' ->
  exists d n,
    dump segment = Some d /\
    sendto_outcome env (send_calls w) d = SendReturns n /\
    a = n - service_len /\
    self w' = send_effect segment n (time_reading env (time_calls w)) (self w) /\
    trace w' = EvSendto d (SendReturns n) (self w) :: trace w /\
    recv_calls w' = recv_calls w.
Proof.
  intros H.
  pose (Q := fun (a : Z) (w' : World) =>
    exists d n,
      dump segment = Some d /\
      sendto_outcome env (send_calls w) d = SendReturns n /\
      a = n - service_len /\
      self w' = send_effect segment n (time_reading env (time_calls w)) (self w) /\
      trace w' = EvSendto d (SendReturns n) (self w) :: trace w /\
      recv_calls w' = recv_calls w).
  apply (post_Ret (_send_segment env segment w) Q (fun _ => True) a w'); [| exact H].
  apply _send_segment_post; trivial.
  intros d n Hd Hs. exists d, n. cbn. auto 10.
Qed.

Lemma slice_to_nonempty {A : Type} (l : list A) (k : Z) :
  0 < k -> l <> [] -> slice_to l k <> [].
Proof.
  intros Hk Hl. rewrite slice_to_firstn by lia.
  destruct l as [| x l]; [congruence |].
  destruct (Z.to_nat k) eqn:E; [lia | discriminate].
Qed.

(* ------------------------------------------------------------------ *)
(** ** Pure acknowledgments and the send window *)

Lemma no_pure_ack_reachable (env : Env) :
  sendto_within env ->
  forall w, reachable env w -> no_pure_ack (_send_window (self w)).
Proof.
  intros Hin.
  apply (invariant_reachable env (fun p _ => no_pure_ack (_send_window p)));
    unfold no_pure_ack.
  - trivial.
  - intros p _ e rest H E. cbn. rewrite E in H. now inversion H.
  - intros p _ k s rest d r j now H E Hd Hr. rewrite E in H.
    inversion H as [| ? ? Hs Hrest]; subst.
    destruct (sendto_outcome env j d) as [| n]; cbn; [assumption |].
    rewrite send_effect_window. cbn.
    destruct (Z.gtb_spec (n - service_len) 0); [| assumption].
    apply put_Forall; [| assumption].
    cbn. apply slice_to_nonempty; [lia | exact Hs].
  - intros p _ payload t0 d r j now H Hd Hr.
    destruct r as [| n]; [assumption |].
    rewrite send_effect_window. cbn.
    destruct (Z.gtb_spec (n - service_len) 0); [| assumption].
    apply put_Forall; [| assumption].
    cbn. apply slice_to_nonempty; [lia |].
    apply Hin in Hr. apply len_dump in Hd. cbn in Hd.
    intros ->. change (len (@nil byte)) with 0 in Hd. lia.
  - intros p _ s H.
    destruct (process_recv_window_other
                (set_recv_window (put (seq_number s, s) (_recv_window p)) p))
      as (_ & _ & ->).
    exact H.
  - intros p _ a H. cbn. now apply prune_send_window_Forall.
  - trivial.
  - constructor.
Qed.

(** C8 — a pure acknowledgment never enters the send window.  Provided
    [sendto] never reports more bytes than it was given: [_send_segment]
    changes the send window only when the payload length accepted is
    strictly positive, in which case it inserts the segment, truncated to
    that length, and the segment has a payload; a segment with an empty
    payload leaves the send window as it was; hence in every reachable
    state every segment of the send window has a non-empty payload. *)
Theorem C8_no_pure_ack_in_send_window (env : Env) :
  sendto_within env ->
  (forall w, reachable env w -> no_pure_ack (_send_window (self w))) /\
  (forall segment w,
      match _send_segment env segment w with
      | Ret data_sent_len w' =>
          (data_sent_len <= 0 \/ data segment = [] ->
           _send_window (self w') = _send_window (self w)) /\
          (0 < data_sent_len ->
           data segment <> [] /\
           exists now,
             _send_window (self w') =
             put (seq_number segment,
                  mkSegment (seq_number segment) (ack_number segment)
                            (slice_to (data segment) data_sent_len) now)
                 (_send_window (self w)))
      | Raise _ w' | OutOfFuel w' => _send_window (self w') = _send_window (self w)
      end).
Proof.
  intros Hin. split; [now apply no_pure_ack_reachable |].
  intros segment w.
  change (post (_send_segment env segment w)
            (fun data_sent_len w' =>
               (data_sent_len <= 0 \/ data segment = [] ->
                _send_window (self w') = _send_window (self w)) /\
               (0 < data_sent_len ->
                data segment <> [] /\
                exists now,
                  _send_window (self w') =
                  put (seq_number segment,
                       mkSegment (seq_number segment) (ack_number segment)
                                 (slice_to (data segment) data_sent_len) now)
                      (_send_window (self w))))
            (fun w' => _send_window (self w') = _send_window (self w))).
  apply _send_segment_post; cbn; trivial.
  intros d n Hd Hs. rewrite send_effect_window.
  apply Hin in Hs. apply len_dump in Hd.
  destruct (Z.gtb_spec (n - service_len) 0) as [Hpos | Hneg]; split.
  - intros [Hle | Hnil]; [lia |].
    rewrite Hnil in Hd. change (len (@nil byte)) with 0 in Hd. lia.
  - intros _. split; [| eexists; reflexivity].
    intros Hnil. rewrite Hnil in Hd. change (len (@nil byte)) with 0 in Hd. lia.
  - trivial.
  - lia.
Qed.

Lemma C8_no_pure_ack_in_send_window_witness :
  no_pure_ack
    (_send_window (self (final_world (send silent_peer 30 hello initial_world)))).
Proof.
  apply (C8_no_pure_ack_in_send_window silent_peer).
  - intros k d n H. cbn in H. injection H as <-. lia.
  - apply reachable_send, reachable_init.
Defined.

(* ------------------------------------------------------------------ *)
(** ** The acknowledgment field of outgoing segments *)

Lemma wire_fields_dump (s : TCPSegment) (d : bytes) :
  dump s = Some d ->
  wire_seq d = seq_number s /\ wire_ack d = ack_number s /\ wire_payload d = data s.
Proof.
  intros H. unfold wire_seq, wire_ack, wire_payload.
  rewrite (load_dump 0 s d H). cbn. auto.
Qed.

Lemma window_behind_pop (p : MyTCPProtocol) (e : entry) (rest : PriorityQueue) :
  window_behind p -> _send_window p = e :: rest ->
  window_behind (set_send_window rest p).
Proof.
  unfold window_behind. intros H E. cbn. rewrite E in H. now inversion H.
Qed.

Lemma window_behind_resend (p : MyTCPProtocol) (k : Z) (s : TCPSegment)
  (rest : PriorityQueue) (n now : Z) :
  window_behind p -> _send_window p = (k, s) :: rest ->
  window_behind (send_effect s n now (set_send_window rest p)) /\
  _sent_bytes_n (send_effect s n now (set_send_window rest p)) = _sent_bytes_n p.
Proof.
  unfold window_behind. intros H E. rewrite E in H.
  inversion H as [| ? ? [Hseq Hack] Hrest]; subst. cbn in Hseq, Hack.
  destruct (send_effect_other s n now (set_send_window rest p)) as (_ & -> & _).
  rewrite send_effect_sent, send_effect_window. cbn.
  destruct (Z.eqb_spec (seq_number s) (_sent_bytes_n p)); [lia |].
  split; [| reflexivity].
  destruct (n - service_len >? 0); [| assumption].
  apply put_Forall; [cbn; lia | assumption].
Qed.

Lemma window_behind_send_new (p : MyTCPProtocol) (payload : bytes) (t0 n now : Z) :
  window_behind p -> service_len <= n ->
  window_behind
    (send_effect (mkSegment (_sent_bytes_n p) (_received_bytes_n p) payload t0) n now p).
Proof.
  unfold window_behind. intros H Hn.
  destruct (send_effect_other (mkSegment (_sent_bytes_n p) (_received_bytes_n p)
                                         payload t0) n now p) as (_ & -> & _).
  rewrite send_effect_sent, send_effect_window. cbn.
  rewrite Z.eqb_refl.
  assert (Hold : Forall (fun e => seq_number (snd e) < _sent_bytes_n p + (n - service_len) /\
                                  ack_number (snd e) <= _received_bytes_n p)
                        (_send_window p)).
  { eapply Forall_impl; [| exact H]. cbn. intros e [? ?]. split; lia. }
  destruct (Z.gtb_spec (n - service_len) 0); [| assumption].
  apply put_Forall; [cbn; lia | assumption].
Qed.

Lemma window_behind_deliver (p : MyTCPProtocol) (s : TCPSegment) :
  window_behind p ->
  window_behind (process_recv_window
                   (set_recv_window (put (seq_number s, s) (_recv_window p)) p)).
Proof.
  unfold window_behind. intros H.
  set (p1 := set_recv_window (put (seq_number s, s) (_recv_window p)) p).
  destruct (process_recv_window_other p1) as (-> & _ & ->).
  pose proof (process_recv_window_received p1) as Hr.
  eapply Forall_impl; [| exact H]. cbn in *. intros e [? ?]. split; lia.
Qed.

Lemma window_behind_confirm (p : MyTCPProtocol) (a : Z) :
  window_behind p ->
  window_behind (set_send_window (prune_send_window a (_send_window p))
                                 (set_confirmed_bytes_n a p)).
Proof.
  unfold window_behind. intros H. cbn. now apply prune_send_window_Forall.
Qed.

Lemma len_dump_ge (s : TCPSegment) (d : bytes) :
  dump s = Some d -> service_len <= len d.
Proof.
  intros H. apply len_dump in H. pose proof (len_nonneg (data s)). lia.
Qed.

Lemma ack_not_ahead_reachable (env : Env) :
  sendto_header_whole env ->
  forall w, reachable env w ->
            window_behind (self w) /\ Forall ack_not_ahead (trace w).
Proof.
  intros Hin.
  apply (invariant_reachable env
           (fun p tr => window_behind p /\ Forall ack_not_ahead tr)).
  - intros p tr t r [H1 H2]. split; [assumption | now constructor].
  - intros p tr e rest [H1 H2] E. split; [| assumption].
    eapply window_behind_pop; eassumption.
  - intros p tr k s rest d r j now [H1 H2] E Hd Hr.
    assert (Hev : ack_not_ahead (EvSendto d r (set_send_window rest p))).
    { destruct (wire_fields_dump s d Hd) as (Ws & Wa & _).
      unfold window_behind in H1. rewrite E in H1.
      inversion H1 as [| ? ? [Hseq Hack] Hrest]; subst.
      cbn in *. rewrite Ws, Wa. right. split; assumption. }
    split; [| now constructor].
    destruct r as [| n]; [eapply window_behind_pop; eassumption |].
    eapply window_behind_resend; eassumption.
  - intros p tr payload t0 d r j now [H1 H2] Hd Hr.
    destruct (wire_fields_dump _ d Hd) as (Ws & Wa & _). cbn in Ws, Wa.
    assert (Hev : ack_not_ahead (EvSendto d r p)).
    { cbn. rewrite Ws, Wa. left. split; reflexivity. }
    split; [| now constructor].
    destruct r as [| n]; [assumption |].
    apply window_behind_send_new; [assumption |].
    apply (Hin j d n Hr). eapply len_dump_ge, Hd.
  - intros p tr s [H1 H2]. split; [now apply window_behind_deliver | assumption].
  - intros p tr a [H1 H2]. split; [now apply window_behind_confirm | assumption].
  - intros p tr b [H1 H2]. now split.
  - split; constructor.
Qed.

Lemma built_by_prefix (seq ack : Z) (payload : bytes) (k : Z) (ev : Event) :
  built_by seq ack payload ev -> built_by seq ack (slice_to payload k) ev.
Proof.
  destruct ev as [d0 [| n0] p0 | t r]; cbn; trivial.
  intros (H1 & H2 & H3 & H4 & H5 & more & Hmore).
  repeat (split; [assumption |]).
  exists (slice_from payload k ++ more).
  now rewrite app_assoc, slice_to_from.
Qed.

Lemma built_cons (q : PriorityQueue) (ev : Event) (tr : list Event) :
  Forall (fun e => Exists (built_by (seq_number (snd e)) (ack_number (snd e))
                                    (data (snd e))) tr) q ->
  Forall (fun e => Exists (built_by (seq_number (snd e)) (ack_number (snd e))
                                    (data (snd e))) (ev :: tr)) q.
Proof.
  intros H. eapply Forall_impl; [| exact H].
  cbn. intros e He. now apply Exists_cons_tl.
Qed.

Lemma stored_once_cons (p : MyTCPProtocol) (ev : Event) (tr : list Event) :
  ~ stores ev -> stored_once p tr -> stored_once p (ev :: tr).
Proof.
  intros Hev [H1 H2]. split.
  - constructor; [tauto | assumption].
  - constructor; [| assumption].
    apply Forall_forall. intros e _ Hs. tauto.
Qed.

Lemma as_built_reachable (env : Env) :
  sendto_header_whole env ->
  forall w, reachable env w -> as_built (self w) (trace w).
Proof.
  intros Hin.
  apply (invariant_reachable env as_built); unfold as_built.
  - intros p tr t r (H1 & H2 & H3 & H4).
    split; [assumption |]. split; [now apply built_cons |].
    split; [now split |]. apply stored_once_cons; [cbn; tauto | assumption].
  - intros p tr e rest (H1 & H2 & H3 & H4) E.
    split; [eapply window_behind_pop; eassumption |].
    split; [| now split].
    unfold window_built in *. cbn. rewrite E in H2. now inversion H2.
  - intros p tr k s rest d r j now (H1 & H2 & H3 & H4 & H5) E Hd Hr.
    destruct (wire_fields_dump s d Hd) as (Ws & Wa & Wp).
    pose proof H1 as Hbehind. unfold window_behind in Hbehind. rewrite E in Hbehind.
    inversion Hbehind as [| ? ? [Hseq Hack] _]; subst. cbn in Hseq, Hack.
    pose proof H2 as Hbuilt. unfold window_built in Hbuilt. rewrite E in Hbuilt.
    inversion Hbuilt as [| ? ? Hhead Hrest]; subst. cbn in Hhead.
    set (ev := EvSendto d (sendto_outcome env j d) (set_send_window rest p)).
    assert (Hev : ~ stores ev).
    { unfold ev. cbn. destruct (sendto_outcome env j d); [tauto |]. rewrite Ws. lia. }
    assert (Hout : outgoing_as_built (ev :: tr)).
    { split; [| assumption]. right. rewrite Ws, Wa, Wp. cbn. auto. }
    destruct (sendto_outcome env j d) as [| n] eqn:Es.
    + split; [eapply window_behind_pop; eassumption |].
      split; [apply built_cons; exact Hrest |].
      split; [exact Hout |]. apply stored_once_cons; [exact Hev | now split].
    + destruct (window_behind_resend p k s rest n now H1 E) as [Hb Hsent].
      split; [exact Hb |].
      split.
      * unfold window_built. rewrite send_effect_window. cbn.
        destruct (n - service_len >? 0); [| apply built_cons; exact Hrest].
        apply put_Forall; [| apply built_cons; exact Hrest].
        cbn. apply Exists_cons_tl.
        eapply Exists_impl; [| exact Hhead]. intros e. apply built_by_prefix.
      * split; [exact Hout |].
        apply stored_once_cons; [exact Hev |].
        unfold stored_once. rewrite Hsent. now split.
  - intros p tr payload t0 d r j now (H1 & H2 & H3 & H4 & H5) Hd Hr.
    destruct (wire_fields_dump _ d Hd) as (Ws & Wa & Wp). cbn in Ws, Wa, Wp.
    set (ev := EvSendto d r p).
    assert (Hout : outgoing_as_built (ev :: tr)).
    { split; [| assumption]. left. now rewrite Ws, Wa. }
    destruct r as [| n].
    + split; [assumption |]. split; [now apply built_cons |].
      split; [exact Hout |]. apply stored_once_cons; [cbn; tauto | now split].
    + pose proof (Hin j d n Hr (len_dump_ge _ _ Hd)) as Hn.
      split; [now apply window_behind_send_new |].
      split.
      * unfold window_built. rewrite send_effect_window. cbn.
        destruct (Z.gtb_spec (n - service_len) 0) as [Hpos | _];
          [| apply built_cons; exact H2].
        apply put_Forall; [| apply built_cons; exact H2].
        cbn. apply Exists_cons_hd. cbn.
        rewrite Ws, Wa, Wp. repeat (split; [lia || reflexivity |]).
        exists (slice_from payload (n - service_len)). now rewrite slice_to_from.
      * split; [exact Hout |].
        unfold stored_once. rewrite send_effect_sent. cbn. rewrite Z.eqb_refl.
        split.
        -- constructor.
           ++ cbn. rewrite Ws. lia.
           ++ eapply Forall_impl; [| exact H4]. cbn. intros e He Hs.
              specialize (He Hs). lia.
        -- constructor; [| assumption].
           eapply Forall_impl; [| exact H4]. cbn. intros e He _ Hs.
           specialize (He Hs). rewrite Ws. lia.
  - intros p tr s (H1 & H2 & H3 & H4).
    split; [now apply window_behind_deliver |].
    set (p1 := set_recv_window (put (seq_number s, s) (_recv_window p)) p).
    destruct (process_recv_window_other p1) as (Es & _ & Ew).
    unfold window_built, stored_once. rewrite Es, Ew. auto.
  - intros p tr a (H1 & H2 & H3 & H4).
    split; [now apply window_behind_confirm |].
    split; [| now split].
    unfold window_built in *. cbn. now apply prune_send_window_Forall.
  - intros p tr b H. exact H.
  - split; [constructor |]. split; [constructor |]. split; [exact I |].
    split; constructor.
Qed.

Lemma outgoing_as_built_split (newer older : list Event) (ev : Event) :
  outgoing_as_built (newer ++ ev :: older) -> outgoing_as_built (ev :: older).
Proof.
  induction newer as [| e newer IH]; [trivial |].
  intros [_ H]. now apply IH.
Qed.

(** C2, as stated, fails: the endpoint sends one byte, the peer's first
    data segment (two bytes, acknowledging nothing) arrives before any
    acknowledgment, and 12 ms after its transmission the unacknowledged
    segment is retransmitted with the [ack] field it was built with, 0,
    while [received_bytes] is 2. *)
Lemma C2_counterexample :
  exists d r p,
    In (EvSendto d r p)
       (trace (final_world (send crossing 40 ["a"%byte] initial_world))) /\
    wire_seq d = 0 /\ _sent_bytes_n p = 1 /\
    wire_ack d = 0 /\ _received_bytes_n p = 2.
Proof.
  exists (datagram 0 0 ["a"%byte]), (SendReturns 17),
         (mkProtocol 1 0 2 [] [] ["x"; "y"]%byte).
  split.
  - vm_compute. auto.
  - vm_compute. auto.
Qed.

(** C2 (amended) — provided [sendto] reports at least the header of every
    datagram, each datagram an endpoint hands to the datagram layer is of
    one of two kinds.  Either its [seq] is the current [sent_bytes] (a first
    transmission or a pure acknowledgment) and its [ack] equals
    [received_bytes] at that moment.  Or its [seq] is below [sent_bytes]: it
    is a retransmission, and its [ack] is at most [received_bytes] at that
    moment and is the one the segment was built with.  That is: among the
    older events of the trace there is the first transmission of the
    segment, a datagram [d0] that started at the [sent_bytes] of its moment,
    acknowledged the [received_bytes] of its moment and of which [sendto]
    accepted payload bytes; the retransmission carries the [seq] and the
    [ack] of [d0] and a payload with which that of [d0] begins; and [d0] is
    the only transmission of the whole trace that stored a segment with
    this [seq]. *)
Theorem C2_ack_of_outgoing_segments
  (env : Env) (w : World) (d : bytes) (r : SendOutcome) (p : MyTCPProtocol)
  (newer older : list Event) :
  sendto_header_whole env ->
  reachable env w ->
  trace w = newer ++ EvSendto d r p :: older ->
  (wire_seq d = _sent_bytes_n p /\ wire_ack d = _received_bytes_n p) \/
  (wire_seq d < _sent_bytes_n p /\ wire_ack d <= _received_bytes_n p /\
   exists d0 n0 p0,
     In (EvSendto d0 (SendReturns n0) p0) older /\
     service_len < n0 /\
     wire_seq d0 = _sent_bytes_n p0 /\ wire_ack d0 = _received_bytes_n p0 /\
     wire_seq d = wire_seq d0 /\ wire_ack d = wire_ack d0 /\
     (exists more, wire_payload d0 = wire_payload d ++ more) /\
     forall d1 n1 p1,
       In (EvSendto d1 (SendReturns n1) p1) (trace w) ->
       service_len < n1 -> wire_seq d1 = _sent_bytes_n p1 ->
       wire_seq d1 = wire_seq d ->
       EvSendto d1 (SendReturns n1) p1 = EvSendto d0 (SendReturns n0) p0).
Proof.
  intros Hin Hw Htr.
  destruct (as_built_reachable env Hin w Hw) as (_ & _ & Hout & _ & Honce).
  rewrite Htr in Hout. apply outgoing_as_built_split in Hout.
  destruct Hout as [[Hfirst | (Hseq & Hack & Hbuilt)] _]; [left; exact Hfirst | right].
  split; [exact Hseq |]. split; [exact Hack |].
  apply Exists_exists in Hbuilt as (ev0 & Hev0 & Hb).
  destruct ev0 as [d0 [| n0] p0 | t0 r0]; cbn in Hb; try contradiction.
  destruct Hb as (Hn0 & Hs0 & Ha0 & Hseq0 & Hack0 & Hmore).
  exists d0, n0, p0.
  split; [exact Hev0 |]. split; [exact Hn0 |]. split; [exact Hs0 |].
  split; [exact Ha0 |]. split; [now symmetry |]. split; [now symmetry |].
  split; [exact Hmore |].
  intros d1 n1 p1 Hev1 Hn1 Hs1 Hseq1.
  assert (Hin0 : In (EvSendto d0 (SendReturns n0) p0) (trace w))
    by (rewrite Htr; apply in_or_app; right; right; exact Hev0).
  destruct (ForallOrdPairs_In Honce _ _ Hev1 Hin0) as [Heq | [Hne | Hne]];
    [exact Heq | exfalso; apply Hne | exfalso; apply Hne];
    cbn; auto; congruence.
Qed.

Lemma C2_ack_of_outgoing_segments_witness :
  (wire_seq (datagram 0 0 ["a"%byte]) = _sent_bytes_n (mkProtocol 1 0 2 [] [] ["x"; "y"]%byte) /\
   wire_ack (datagram 0 0 ["a"%byte])
     = _received_bytes_n (mkProtocol 1 0 2 [] [] ["x"; "y"]%byte)) \/
  (wire_seq (datagram 0 0 ["a"%byte]) < _sent_bytes_n (mkProtocol 1 0 2 [] [] ["x"; "y"]%byte) /\
   wire_ack (datagram 0 0 ["a"%byte])
     <= _received_bytes_n (mkProtocol 1 0 2 [] [] ["x"; "y"]%byte) /\
   exists d0 n0 p0,
     In (EvSendto d0 (SendReturns n0) p0)
        [ EvSendto (datagram 1 2 []) (SendReturns 16)
                   (mkProtocol 1 0 2 [(0, mkSegment 0 0 ["a"%byte] 3000)] []
                               ["x"; "y"]%byte);
          EvRecvfrom (Some ack_timeout) (RecvDatagram (datagram 0 0 ["x"; "y"]%byte));
          EvSendto (datagram 0 0 ["a"%byte]) (SendReturns 17) init ] /\
     service_len < n0 /\
     wire_seq d0 = _sent_bytes_n p0 /\ wire_ack d0 = _received_bytes_n p0 /\
     wire_seq (datagram 0 0 ["a"%byte]) = wire_seq d0 /\
     wire_ack (datagram 0 0 ["a"%byte]) = wire_ack d0 /\
     (exists more, wire_payload d0 = wire_payload (datagram 0 0 ["a"%byte]) ++ more) /\
     forall d1 n1 p1,
       In (EvSendto d1 (SendReturns n1) p1)
          (trace (final_world (send crossing 40 ["a"%byte] initial_world))) ->
       service_len < n1 -> wire_seq d1 = _sent_bytes_n p1 ->
       wire_seq d1 = wire_seq (datagram 0 0 ["a"%byte]) ->
       EvSendto d1 (SendReturns n1) p1 = EvSendto d0 (SendReturns n0) p0).
Proof.
  apply (C2_ack_of_outgoing_segments crossing
           (final_world (send crossing 40 ["a"%byte] initial_world))
           (datagram 0 0 ["a"%byte]) (SendReturns 17)
           (mkProtocol 1 0 2 [] [] ["x"; "y"]%byte)
           [ EvRecvfrom (Some ack_timeout) (RecvDatagram (datagram 2 1 [])) ]
           [ EvSendto (datagram 1 2 []) (SendReturns 16)
                      (mkProtocol 1 0 2 [(0, mkSegment 0 0 ["a"%byte] 3000)] []
                                  ["x"; "y"]%byte);
             EvRecvfrom (Some ack_timeout) (RecvDatagram (datagram 0 0 ["x"; "y"]%byte));
             EvSendto (datagram 0 0 ["a"%byte]) (SendReturns 17) init ]).
  - intros k d n H. cbn in H. injection H as <-. trivial.
  - apply reachable_send, reachable_init.
  - vm_compute. reflexivity.
Defined.

(* ------------------------------------------------------------------ *)
(** ** The return value of [send] *)

Lemma first_transmitted_cons (e : Event) (tr : list Event) :
  first_transmitted (e :: tr) = first_transmitted tr ++ first_transmitted_by e.
Proof.
  unfold first_transmitted. cbn [rev].
  rewrite map_app, concat_app. cbn. now rewrite app_nil_r.
Qed.

Lemma firstn_plus {A : Type} (a b : nat) (l : list A) :
  firstn (a + b) l = firstn a l ++ firstn b (skipn a l).
Proof.
  revert l. induction a as [| a IH]; intros l; [reflexivity |].
  destruct l as [| x l]; cbn; [now rewrite firstn_nil | now rewrite IH].
Qed.

Lemma slice_to_plus {A : Type} (l : list A) (k j : Z) :
  0 <= k -> 0 <= j ->
  slice_to l (k + j) = slice_to l k ++ slice_to (slice_from l k) j.
Proof.
  intros Hk Hj.
  rewrite !slice_to_firstn, slice_from_skipn by lia.
  rewrite Z2Nat.inj_add by lia. apply firstn_plus.
Qed.

Lemma slice_from_plus {A : Type} (l : list A) (k j : Z) :
  0 <= k -> 0 <= j ->
  slice_from (slice_from l k) j = slice_from l (k + j).
Proof.
  intros Hk Hj.
  rewrite !slice_from_skipn by lia.
  rewrite skipn_skipn. f_equal. lia.
Qed.

Lemma slice_to_slice_to {A : Type} (l : list A) (a b : Z) :
  0 <= b <= a -> slice_to (slice_to l a) b = slice_to l b.
Proof.
  intros H. rewrite !slice_to_firstn by lia.
  rewrite firstn_firstn. f_equal. lia.
Qed.

Lemma slice_to_nil {A : Type} (k : Z) : slice_to (@nil A) k = [].
Proof. unfold slice_to. apply firstn_nil. Qed.

Section QuietSteps.

Variable env : Env.
Hypothesis Hsane : sendto_sane env.
Variables (tr0 : list Event) (fresh : bytes) (sent : Z).

Lemma quiet_event (p : MyTCPProtocol) (tr : list Event) (e : Event) (p' : MyTCPProtocol) :
  transmitted_since tr0 fresh sent p tr -> first_transmitted_by e = [] ->
  window_behind p' -> _sent_bytes_n p' = _sent_bytes_n p ->
  transmitted_since tr0 fresh sent p' (e :: tr).
Proof.
  intros (Hw & Hs & ev & -> & Hf) He Hw' Hs'.
  split; [assumption |]. split; [congruence |].
  exists (e :: ev). split; [reflexivity |].
  now rewrite first_transmitted_cons, He, app_nil_r.
Qed.

Lemma quiet_state (p : MyTCPProtocol) (tr : list Event) (p' : MyTCPProtocol) :
  transmitted_since tr0 fresh sent p tr ->
  window_behind p' -> _sent_bytes_n p' = _sent_bytes_n p ->
  transmitted_since tr0 fresh sent p' tr.
Proof.
  intros (Hw & Hs & Hev) Hw' Hs'. split; [assumption |]. split; [congruence | assumption].
Qed.

Lemma quiet_resend_rule p tr k s rest d r j now :
  transmitted_since tr0 fresh sent p tr -> _send_window p = (k, s) :: rest ->
  dump s = Some d -> sendto_outcome env j d = r ->
  transmitted_since tr0 fresh sent
    (match r with
     | SendError => set_send_window rest p
     | SendReturns n => send_effect s n now (set_send_window rest p)
     end)
    (EvSendto d r (set_send_window rest p) :: tr).
Proof.
  intros H E Hd Hr. pose proof H as (Hw & _).
  assert (Hseq : seq_number s < _sent_bytes_n p).
  { unfold window_behind in Hw. rewrite E in Hw. inversion Hw as [| ? ? [? ?] ?]. assumption. }
  apply (quiet_event p).
  - assumption.
  - destruct (wire_fields_dump s d Hd) as (Ws & _).
    destruct r as [| n]; cbn; [reflexivity |].
    rewrite Ws. destruct (Z.eqb_spec (seq_number s) (_sent_bytes_n p)); [lia | reflexivity].
  - destruct r as [| n]; [eapply window_behind_pop; eassumption |].
    eapply window_behind_resend; eassumption.
  - destruct r as [| n]; [reflexivity |].
    eapply window_behind_resend; eassumption.
Qed.

Lemma quiet_send_ack_rule p tr t0 d r j now :
  transmitted_since tr0 fresh sent p tr ->
  dump (mkSegment (_sent_bytes_n p) (_received_bytes_n p) [] t0) = Some d ->
  sendto_outcome env j d = r ->
  transmitted_since tr0 fresh sent
    (match r with
     | SendError => p
     | SendReturns n =>
         send_effect (mkSegment (_sent_bytes_n p) (_received_bytes_n p) [] t0) n now p
     end)
    (EvSendto d r p :: tr).
Proof.
  intros H Hd Hr. pose proof H as (Hw & _).
  destruct (wire_fields_dump _ d Hd) as (Ws & _ & Wp). cbn in Ws, Wp.
  apply (quiet_event p).
  - assumption.
  - destruct r as [| n]; cbn; [reflexivity |].
    rewrite Wp, slice_to_nil. now destruct (_ =? _).
  - destruct r as [| n]; [assumption |].
    apply window_behind_send_new; [assumption |].
    apply (Hsane j d n Hr). eapply len_dump_ge, Hd.
  - destruct r as [| n]; [reflexivity |].
    rewrite send_effect_sent. cbn. rewrite Z.eqb_refl.
    pose proof (len_dump _ _ Hd) as Hl. cbn in Hl. rewrite len_nil in Hl.
    pose proof (Hsane j d n Hr). lia.
Qed.

Lemma quiet_receive (timeout : option Z) (w : World) :
  transmitted_since tr0 fresh sent (self w) (trace w) ->
  post (_receive_segment env timeout w)
       (fun _ w' => transmitted_since tr0 fresh sent (self w') (trace w')) (fun _ => True).
Proof.
  intros H.
  eapply post_weaken;
    [apply (holds_receive env (transmitted_since tr0 fresh sent) (fun _ => True))
    | trivial | trivial]; trivial.
  - intros p tr t r _ Hq.
    apply (quiet_event p); [assumption | reflexivity | apply Hq | reflexivity].
  - intros; eapply quiet_send_ack_rule; eassumption.
  - intros p tr s Hq. apply (quiet_state p); [assumption | |].
    + apply window_behind_deliver, Hq.
    + now destruct (process_recv_window_other
                      (set_recv_window (put (seq_number s, s) (_recv_window p)) p))
        as (-> & _).
  - intros p tr a Hq. apply (quiet_state p); [assumption | | reflexivity].
    apply window_behind_confirm, Hq.
Qed.

Lemma quiet_resend (w : World) :
  transmitted_since tr0 fresh sent (self w) (trace w) ->
  post (_resend_earliest_segment env w)
       (fun _ w' => transmitted_since tr0 fresh sent (self w') (trace w')) (fun _ => True).
Proof.
  intros H.
  eapply post_weaken;
    [apply (holds_resend env (transmitted_since tr0 fresh sent)) | trivial | trivial];
    trivial.
  - intros p tr e rest Hq E. apply (quiet_state p); [assumption | | reflexivity].
    eapply window_behind_pop; [apply Hq | eassumption].
  - intros; eapply quiet_resend_rule; eassumption.
Qed.

End QuietSteps.

Lemma truthy_len (b : bytes) : truthy b = true -> 0 < len b.
Proof.
  destruct b as [| x b]; [discriminate |].
  intros _. rewrite len_cons. pose proof (len_nonneg b). lia.
Qed.

Lemma send_iteration_invariant (env : Env) (d0 : bytes) (tr0 : list Event) (sent0 : Z)
  (l : SendLocals) (w : World) :
  sendto_sane env ->
  send_invariant d0 tr0 sent0 l w ->
  post (send_iteration env l w)
       (fun l' w' => send_invariant d0 tr0 sent0 l' w') (fun _ => True).
Proof.
  intros Hsane (Hq & Hdata & Hrange). unfold send_iteration. mbind.
  destruct (negb _ && truthy (l_data l)) eqn:Hbranch; mbind.
  - (* a new segment *)
    apply andb_prop in Hbranch as [_ Htruthy]. apply truthy_len in Htruthy.
    set (size := Z.min mss (len (l_data l))) in *.
    assert (Hsize : 0 <= size <= len (l_data l)) by (unfold size, mss; lia).
    apply _send_segment_post; trivial.
    intros d n Hd Hs. mbind.
    pose proof (len_dump _ _ Hd) as Hlen. cbn in Hlen.
    rewrite len_slice_to in Hlen by lia.
    destruct (Hsane _ _ _ Hs (len_dump_ge _ _ Hd)) as [Hlo Hhi].
    destruct (wire_fields_dump _ _ Hd) as (Ws & _ & Wp). cbn in Ws, Wp.
    assert (Hlen0 : len (l_data l) = len d0 - l_sent_data_len l).
    { rewrite Hdata, len_slice_from by lia. lia. }
    eapply post_weaken; [apply (quiet_resend env tr0) | | trivial].
    + cbn. destruct Hq as (Hw & Hsent & ev & Htr & Hfresh).
      split; [now apply window_behind_send_new |].
      split.
      * rewrite send_effect_sent. cbn. rewrite Z.eqb_refl. rewrite Hsent. reflexivity.
      * exists (EvSendto d (SendReturns n) (self w) :: ev).
        split; [now rewrite Htr |].
        rewrite first_transmitted_cons, Hfresh. cbn.
        rewrite Ws, Z.eqb_refl, Wp.
        rewrite slice_to_slice_to by lia.
        rewrite Hdata. symmetry. apply slice_to_plus; lia.
    + cbn. intros _ w' Hq'. split; [| split]; cbn.
      * replace (sent0 + (l_sent_data_len l + (n - service_len)))
          with (sent0 + l_sent_data_len l + (n - service_len)) by lia.
        exact Hq'.
      * rewrite Hdata. apply slice_from_plus; lia.
      * lia.
  - (* a receive attempt *)
    eapply post_weaken; [apply (quiet_receive env Hsane tr0); exact Hq | | trivial].
    cbn. intros ok w' Hq'. mbind.
    eapply post_weaken; [apply (quiet_resend env tr0); exact Hq' | | trivial].
    cbn. intros _ w'' Hq''. split; [| split]; cbn; assumption.
Qed.

Lemma send_loop_invariant (env : Env) (d0 : bytes) (tr0 : list Event) (sent0 : Z)
  (fuel : nat) (l : SendLocals) (w : World) :
  sendto_sane env ->
  send_invariant d0 tr0 sent0 l w ->
  post (send_loop env fuel l w)
       (fun l' w' => send_invariant d0 tr0 sent0 l' w') (fun _ => True).
Proof.
  intros Hsane. revert l w.
  induction fuel as [| fuel IH]; intros l w H;
    rewrite send_loop_eq; destruct (send_continues (self w) l); cbn; trivial.
  apply post_bind.
  eapply post_weaken; [apply send_iteration_invariant; eassumption | | trivial].
  cbn. intros l' w' H'. now apply IH.
Qed.

Lemma sendto_sane_header_whole (env : Env) :
  sendto_sane env -> sendto_header_whole env.
Proof. intros H k d n Hs Hd. now apply (H k d n Hs Hd). Qed.

(** C5 — the return value of [send].  Provided [sendto] accepts the header
    and a prefix of the payload of each datagram: when [send d] returns
    [n] from a reachable state, [n] is the number of bytes of [d] that the
    call has put on the wire for the first time, and these bytes are the
    first [n] bytes of [d]: each first transmission contributes the payload
    length accepted, retransmissions and acknowledgments contribute
    nothing; the loop's cursor is [d[n:]] and its tally is [n];
    [sent_bytes] has advanced by [n]; and [0 <= n <= len d]. *)
Theorem C5_send_return_value
  (env : Env) (w : World) (d : bytes) (fuel : nat) (n : Z) (w' : World) :
  sendto_sane env ->
  reachable env w ->
  send env fuel d w = Ret n w' ->
  0 <= n <= len d /\
  _sent_bytes_n (self w') = _sent_bytes_n (self w) + n /\
  (exists ev, trace w' = ev ++ trace w /\
              first_transmitted ev = slice_to d n /\
              len (first_transmitted ev) = n) /\
  (exists l, send_loop env fuel (mkLocals d 0 0) w = Ret l w' /\
             l_sent_data_len l = n /\ l_data l = slice_from d n).
Proof.
  intros Hsane Hreach Hsend.
  destruct (ack_not_ahead_reachable env (sendto_sane_header_whole env Hsane) w Hreach)
    as [Hbehind _].
  assert (Hinit : send_invariant d (trace w) (_sent_bytes_n (self w)) (mkLocals d 0 0) w).
  { split; [| split]; cbn.
    - split; [assumption |]. split; [lia |]. exists [].
      split; [reflexivity | now rewrite slice_to_firstn by lia].
    - now rewrite slice_from_skipn by lia.
    - pose proof (len_nonneg d). lia. }
  pose proof (send_loop_invariant env d (trace w) (_sent_bytes_n (self w)) fuel
                                  (mkLocals d 0 0) w Hsane Hinit) as Hloop.
  unfold send, bind in Hsend.
  destruct (send_loop env fuel (mkLocals d 0 0) w) as [l w1 | |]; try discriminate.
  cbn in Hsend. injection Hsend as <- <-.
  destruct Hloop as ((_ & Hsent & ev & Htr & Hfresh) & Hdata & Hrange).
  split; [assumption |]. split; [assumption |]. split.
  - exists ev. split; [assumption |]. split; [assumption |].
    rewrite Hfresh, len_slice_to by lia. lia.
  - exists l. auto.
Qed.

Lemma C5_send_return_value_witness :
  0 <= 5 <= len hello /\
  _sent_bytes_n (self (final_world (send silent_peer 30 hello initial_world))) =
    _sent_bytes_n (self initial_world) + 5 /\
  (exists ev,
      trace (final_world (send silent_peer 30 hello initial_world)) =
        ev ++ trace initial_world /\
      first_transmitted ev = slice_to hello 5 /\
      len (first_transmitted ev) = 5) /\
  (exists l,
      send_loop silent_peer 30 (mkLocals hello 0 0) initial_world =
        Ret l (final_world (send silent_peer 30 hello initial_world)) /\
      l_sent_data_len l = 5 /\ l_data l = slice_from hello 5).
Proof.
  apply (C5_send_return_value silent_peer initial_world hello 30 5
           (final_world (send silent_peer 30 hello initial_world))).
  - intros k d n H Hd. cbn in H. injection H as <-. lia.
  - apply reachable_init.
  - vm_compute. reflexivity.
Defined.

(* ------------------------------------------------------------------ *)
(** ** Calls of the methods are over after finitely many steps *)

Lemma finishes_bind {A B : Type} (m : M A) (k : A -> M B) (w : World) :
  finishes (m w) -> (forall a w', m w = Ret a w' -> finishes (k a w')) ->
  finishes (bind m k w).
Proof.
  unfold bind. destruct (m w) as [a w' | e w' | w']; cbn; auto.
Qed.

Lemma _send_segment_finishes (env : Env) (segment : TCPSegment) (w : World) :
  finishes (_send_segment env segment w).
Proof.
  unfold _send_segment, TCPSegment_dump, sendto, bind. cbn.
  destruct (dump segment) as [d |]; cbn; trivial.
  destruct (sendto_outcome env (send_calls w) d) as [| n]; cbn; trivial.
  destruct (seq_number segment =? _sent_bytes_n (self w));
    destruct (n - service_len >? 0); cbn; trivial.
Qed.

Ltac mfinish :=
  cbn;
  lazymatch goal with
  | |- finishes (bind _ _ _) =>
      apply finishes_bind; [mfinish | intros ? ? _; mfinish]
  | |- finishes (_send_segment _ _ _) => apply _send_segment_finishes
  | |- finishes ((if ?b then _ else _) _) => destruct b; mfinish
  | |- _ => trivial
  end.


Lemma _receive_segment_finishes (env : Env) (timeout : option Z) (w : World) :
  finishes (_receive_segment env timeout w).
Proof.
  unfold _receive_segment. cbn.
  apply finishes_bind; rewrite receive_attempt_eq; cbn.
  - now destruct (recvfrom_outcome env (recv_calls w)).
  - intros [segment |] w' _; mfinish.
Qed.


(** What the methods do to the cursor of [recvfrom]. *)

Lemma _send_segment_recv_calls (env : Env) (segment : TCPSegment) (w : World) :
  post (_send_segment env segment w)
       (fun _ w' => recv_calls w' = recv_calls w) (fun _ => True).
Proof. apply _send_segment_post; cbn; trivial. Qed.


Lemma _receive_segment_recv_calls (env : Env) (timeout : option Z) (w : World) :
  post (_receive_segment env timeout w)
       (fun ok w' =>
          recv_calls w' = S (recv_calls w) /\
          ok = negb (is_failure (recvfrom_outcome env (recv_calls w))))
       (fun _ => True).
Proof.
  unfold _receive_segment. cbn.
  apply post_bind. rewrite receive_attempt_eq. cbn.
  destruct (recvfrom_outcome env (recv_calls w)) as [| | d]; cbn; auto.
  destruct (len (data _) >? 0); mbind; auto.
  eapply post_weaken; [apply _send_segment_recv_calls | | trivial].
  cbn. intros _ w' ->. auto.
Qed.

(** A failed receive attempt: nothing but the socket is touched. *)
Lemma _receive_segment_failure (env : Env) (timeout : option Z) (w : World) :
  is_failure (recvfrom_outcome env (recv_calls w)) = true ->
  _receive_segment env timeout w =
  Ret false (mkWorld (self w) timeout (S (recv_calls w)) (send_calls w) (time_calls w)
                     (EvRecvfrom timeout (recvfrom_outcome env (recv_calls w)) :: trace w)).
Proof.
  intros H. unfold _receive_segment, bind. cbn. rewrite receive_attempt_eq. cbn.
  destruct (recvfrom_outcome env (recv_calls w)); [reflexivity | reflexivity | discriminate].
Qed.

(* ------------------------------------------------------------------ *)
(** ** [recv] *)

Lemma post_trivial {A : Type} (r : Result A) :
  post r (fun _ _ => True) (fun _ => True).
Proof. now destruct r. Qed.

Lemma recv_loop_length (env : Env) (n : Z) (fuel : nat) (d : bytes) (w : World) :
  len d <= n ->
  post (recv_loop env fuel n d w)
       (fun d' w' => len d' <= n /\ exists more, d' = d ++ more) (fun _ => True).
Proof.
  revert d w. induction fuel as [| fuel IH]; intros d w Hd;
    rewrite recv_loop_eq; destruct (Z.ltb_spec (len d) n) as [Hlt | Hge]; cbn; trivial;
    try (split; [assumption | exists []; now rewrite app_nil_r]).
  apply post_bind.
  eapply post_weaken; [apply post_trivial | | trivial].
  cbn. intros ok w' _. destruct ok; cbn.
  - eapply post_weaken; [apply IH | | trivial].
    + rewrite len_app. pose proof (len_slice_to_le (_buffer (self w')) (n - len d)). lia.
    + cbn. intros d' w'' [Hlen [more ->]]. split; [assumption |].
      eexists. now rewrite <- app_assoc.
  - split; [assumption | exists []; now rewrite app_nil_r].
Qed.

Lemma recv_loop_finishes (env : Env) (n : Z) (k fuel : nat) (d : bytes) (w : World) :
  is_failure (recvfrom_outcome env (recv_calls w + k)) = true ->
  (k < fuel)%nat ->
  finishes (recv_loop env fuel n d w).
Proof.
  revert fuel d w. induction k as [| k IH]; intros fuel d w Hfail Hfuel;
    (destruct fuel as [| fuel]; [lia |]);
    rewrite recv_loop_eq; destruct (len d <? n); cbn; trivial;
    (apply finishes_bind; [apply _receive_segment_finishes |]);
    intros ok w' Hrecv;
    pose proof (_receive_segment_recv_calls env None w) as Hc;
    rewrite Hrecv in Hc; cbn in Hc; destruct Hc as [Hcalls Hok].
  - rewrite Nat.add_0_r in Hfail. rewrite Hfail in Hok. subst ok. cbn. trivial.
  - destruct ok; cbn; trivial.
    apply IH; [| lia]. cbn. rewrite Hcalls.
    now replace (S (recv_calls w) + k)%nat with (recv_calls w + S k)%nat by lia.
Qed.

(** C7, as stated for every integer, fails for a negative [n]: on a fresh
    endpoint [recv(-1)] returns the empty string, whose length 0 is not at
    most -1 (with bytes in the read buffer it returns all of them but the
    last). *)
Lemma C7_counterexample :
  exists d w',
    recv silent_peer 0 (-1) initial_world = Ret d w' /\ ~ (len d <= -1).
Proof.
  eexists _, _. split; [vm_compute; reflexivity |].
  vm_compute. intros H. apply H. reflexivity.
Qed.

(** C7 (amended) — for every [n >= 0]: whenever [recv n] returns, the
    bytes returned are at most [n] and start with the first [n] bytes of
    the read buffer; if the buffer holds [n] bytes or more they are
    returned at once, without any receive attempt, and removed from the
    buffer; a failed receive attempt ends the loop at once with the bytes
    gathered so far, the endpoint unchanged; and the call is over as soon
    as one of its receive attempts fails. *)
Theorem C7_recv_returns_at_most_n (env : Env) (n : Z) (w : World) (fuel : nat) :
  0 <= n ->
  match recv env fuel n w with
  | Ret d w' => len d <= n /\ exists more, d = slice_to (_buffer (self w)) n ++ more
  | _ => True
  end /\
  (n <= len (_buffer (self w)) ->
   exists w', recv env fuel n w = Ret (slice_to (_buffer (self w)) n) w' /\
              trace w' = trace w /\
              _buffer (self w') = slice_from (_buffer (self w)) n) /\
  (forall d0 w0,
      len d0 < n -> is_failure (recvfrom_outcome env (recv_calls w0)) = true ->
      exists w', recv_loop env (S fuel) n d0 w0 = Ret d0 w' /\ self w' = self w0) /\
  (forall k,
      is_failure (recvfrom_outcome env (recv_calls w + k)) = true -> (k < fuel)%nat ->
      finishes (recv env fuel n w)).
Proof.
  intros Hn. split; [| split; [| split]].
  - change (post (recv env fuel n w)
              (fun d w' => len d <= n /\
                           exists more, d = slice_to (_buffer (self w)) n ++ more)
              (fun _ => True)).
    unfold recv. mbind. apply recv_loop_length. now apply len_slice_to_le.
  - intros Hbuf. unfold recv, bind. cbn.
    rewrite recv_loop_eq, len_slice_to by assumption.
    destruct (Z.ltb_spec (Z.min n (len (_buffer (self w)))) n); [lia |].
    eexists. split; [reflexivity |]. cbn. auto.
  - intros d0 w0 Hlt Hfail. rewrite recv_loop_eq.
    destruct (Z.ltb_spec (len d0) n); [| lia].
    unfold bind. rewrite _receive_segment_failure by assumption. cbn.
    eexists. split; reflexivity.
  - intros k Hfail Hfuel. unfold recv. mfinish.
    now apply (recv_loop_finishes env n k).
Qed.

Lemma C7_recv_returns_at_most_n_witness :
  match recv crossing 5 1 initial_world with
  | Ret d w' => len d <= 1 /\ exists more, d = slice_to (_buffer (self initial_world)) 1 ++ more
  | _ => True
  end.
Proof.
  assert (H0 : 0 <= 1) by lia.
  pose proof (C7_recv_returns_at_most_n crossing 1 initial_world 5 H0) as H.
  destruct H as [H _]. exact H.
Defined.

(* ------------------------------------------------------------------ *)
(** ** Termination of [send] *)


Arguments datagram : simpl never.














(* ------------------------------------------------------------------ *)
(** ** The receive window of a reachable endpoint *)

(** In every reachable state the receive window is in key order and holds
    only segments that lie beyond [received_bytes]; in particular
    [_process_recv_window] is only ever called on a window in key order. *)
Lemma recv_window_reachable (env : Env) (w : World) :
  reachable env w ->
  pq_ok (_recv_window (self w)) /\
  Forall (fun e => _received_bytes_n (self w) < seq_number (snd e)) (_recv_window (self w)).
Proof.
  revert w.
  apply (invariant_reachable env
           (fun p _ => pq_ok (_recv_window p) /\
                       Forall (fun e => _received_bytes_n p < seq_number (snd e))
                              (_recv_window p))).
  - trivial.
  - trivial.
  - intros p _ k s rest d r j now H _ _ _. destruct r as [| n]; [exact H |].
    destruct (send_effect_other s n now (set_send_window rest p)) as (_ & -> & -> & _).
    exact H.
  - intros p _ payload t0 d r j now H _ _. destruct r as [| n]; [exact H |].
    destruct (send_effect_other (mkSegment (_sent_bytes_n p) (_received_bytes_n p)
                                           payload t0) n now p) as (_ & -> & -> & _).
    exact H.
  - intros p _ s [Hok _]. unfold process_recv_window. cbn.
    pose proof (drain_recv_window_spec (put (seq_number s, s) (_recv_window p))
                  (_received_bytes_n p) (_buffer p)) as Hspec.
    destruct (drain_recv_window _ _ _) as [[q' r'] b']. cbn.
    destruct Hspec as (_ & Hq' & Hgt & _); [| now split].
    apply put_ok; [reflexivity | assumption].
  - trivial.
  - trivial.
  - split; [split |]; constructor.
Qed.

(* ------------------------------------------------------------------ *)
(** ** Bytes in flight *)

Lemma _resend_earliest_segment_counters (env : Env) (w : World) :
  window_behind (self w) ->
  post (_resend_earliest_segment env w)
       (fun _ w' => window_behind (self w') /\
                    _sent_bytes_n (self w') = _sent_bytes_n (self w) /\
                    _confirmed_bytes_n (self w') = _confirmed_bytes_n (self w))
       (fun _ => True).
Proof.
  intros H.
  pose (I := fun (p : MyTCPProtocol) (_ : list Event) =>
               window_behind p /\
               _sent_bytes_n p = _sent_bytes_n (self w) /\
               _confirmed_bytes_n p = _confirmed_bytes_n (self w)).
  eapply post_weaken; [apply (holds_resend env I) | trivial | trivial]; unfold I.
  - intros p tr e rest (Hw & Hs & Hc) E. split; [| now split].
    eapply window_behind_pop; eassumption.
  - intros p tr k s rest d r j now (Hw & Hs & Hc) E _ _.
    destruct r as [| n].
    + split; [| now split]. eapply window_behind_pop; eassumption.
    + destruct (window_behind_resend p k s rest n now Hw E) as [Hw' Hs'].
      destruct (send_effect_other s n now (set_send_window rest p)) as (Hc' & _).
      split; [assumption |]. split; [congruence |]. now rewrite Hc'.
  - unfold holds. auto.
Qed.

(** One iteration of the loop of [send] keeps the bytes in flight within
    [window_size + mss], unless the datagram it receives lowers
    [confirmed_bytes]. *)
Lemma send_iteration_in_flight (env : Env) (l : SendLocals) (w : World) :
  sendto_sane env ->
  window_behind (self w) ->
  _sent_bytes_n (self w) - _confirmed_bytes_n (self w) <= window_size + mss ->
  post (send_iteration env l w)
       (fun _ w' =>
          window_behind (self w') /\
          (_confirmed_bytes_n (self w) <= _confirmed_bytes_n (self w') ->
           _sent_bytes_n (self w') - _confirmed_bytes_n (self w') <= window_size + mss))
       (fun _ => True).
Proof.
  intros Hsane Hw Hbound. unfold send_iteration. mbind.
  destruct (negb _ && truthy (l_data l)) eqn:Hbranch; mbind.
  - (* a new segment: the window had room *)
    apply andb_prop in Hbranch as [Hroom Htruthy]. apply truthy_len in Htruthy.
    apply negb_true_iff in Hroom.
    apply _send_segment_post; trivial.
    intros d n Hd Hs. mbind.
    pose proof (len_dump _ _ Hd) as Hlen. cbn in Hlen.
    rewrite len_slice_to in Hlen by (unfold mss; lia).
    destruct (Hsane _ _ _ Hs (len_dump_ge _ _ Hd)) as [Hlo Hhi].
    eapply post_weaken; [apply _resend_earliest_segment_counters | | trivial].
    + cbn. now apply window_behind_send_new.
    + cbn. intros _ w' (Hw' & Hs' & Hc'). split; [assumption |]. intros _.
      rewrite Hs', Hc', send_effect_sent. cbn. rewrite Z.eqb_refl.
      destruct (send_effect_other
                  (mkSegment (_sent_bytes_n (self w)) (_received_bytes_n (self w))
                             (slice_to (l_data l) (Z.min mss (len (l_data l))))
                             (time_reading env (time_calls w)))
                  n (time_reading env (S (time_calls w))) (self w)) as (-> & _).
      lia.
  - (* a receive attempt *)
    eapply post_weaken;
      [apply (quiet_receive env Hsane (trace w) [] (_sent_bytes_n (self w))) | | trivial].
    + split; [assumption |]. split; [reflexivity |]. now exists [].
    + cbn. intros ok w' (Hw' & Hs' & _). mbind.
      eapply post_weaken; [apply _resend_earliest_segment_counters; exact Hw' | | trivial].
      cbn. intros _ w'' (Hw'' & Hs'' & Hc''). split; [assumption |].
      rewrite Hs'', Hc'', Hs'. lia.
Qed.

(* ------------------------------------------------------------------ *)
(** ** The acknowledgment counter *)

(** Whatever [confirmed_bytes] was, a datagram that arrives sets it to the
    datagram's [ack] field, unless an exception leaves the call first. *)
Lemma _receive_segment_confirmed (env : Env) (timeout : option Z) (w : World) (d : bytes) :
  recvfrom_outcome env (recv_calls w) = RecvDatagram d ->
  post (_receive_segment env timeout w)
       (fun ok w' =>
          ok = true /\
          _confirmed_bytes_n (self w') = wire_ack (slice_to d (mss + service_len)))
       (fun _ => True).
Proof.
  intros Hd. unfold _receive_segment. cbn.
  apply post_bind. rewrite receive_attempt_eq. cbn. rewrite Hd. cbn.
  destruct (len (data _) >? 0); mbind; [| now split].
  apply _send_segment_post; cbn; trivial.
  intros d' n _ _. now split.
Qed.

(** C1, on the code: the peer's acknowledgment of our five bytes overtakes
    a data segment the peer had sent earlier, whose [ack] field is 0.
    [send] returns with [confirmed_bytes = 5]; the following [recv]
    receives the late segment and leaves [confirmed_bytes = 0]. *)
Lemma C1_confirmed_bytes_decreases :
  exists w1 w2,
    send overtaking 40 hello initial_world = Ret 5 w1 /\
    _confirmed_bytes_n (self w1) = 5 /\
    recv overtaking 5 1 w1 = Ret ["x"%byte] w2 /\
    _confirmed_bytes_n (self w2) = 0 /\
    _sent_bytes_n (self w2) = 5.
Proof.
  eexists _, _.
  split; [vm_compute; reflexivity |].
  split; [reflexivity |].
  split; [vm_compute; reflexivity |].
  split; reflexivity.
Qed.

(** C4, on the code: [send] emits 19500 bytes, receives their
    acknowledgment, emits one more byte and then receives a delayed
    acknowledgment with [ack = 0], which is stored; the call returns with
    [sent_bytes - confirmed_bytes = 19501], above
    [window_size + mss = 19500]. *)
Lemma C4_in_flight_exceeds_bound :
  exists w',
    send delayed_ack 60 large_payload initial_world = Ret 19501 w' /\
    _sent_bytes_n (self w') - _confirmed_bytes_n (self w') = 19501 /\
    window_size + mss = 19500.
Proof.
  eexists.
  split; [vm_compute; reflexivity |].
  split; reflexivity.
Qed.

(* ================================================================== *)
(** * Further properties of the code *)

(* ------------------------------------------------------------------ *)
(** ** The codec at its edges *)

Lemma dump_None (s : TCPSegment) :
  ~ (0 <= seq_number s < 2 ^ 64 /\ 0 <= ack_number s < 2 ^ 64) -> dump s = None.
Proof.
  intros H. destruct (dump s) as [d |] eqn:E; [| reflexivity].
  apply dump_inv in E. tauto.
Qed.

(** X1 — [dump] on fields that do not fit.  When [seq_number] or
    [ack_number] is negative or at least 2^64, [dump] raises
    [OverflowError], and [_send_segment] raises it before it reaches
    [sendto]: no datagram is sent, the clock is not read, and counters,
    windows and buffer are left as they were. *)
Theorem X1_dump_overflow (env : Env) (s : TCPSegment) (w : World) :
  ~ (0 <= seq_number s < 2 ^ 64 /\ 0 <= ack_number s < 2 ^ 64) ->
  dump s = None /\
  _send_segment env s w =
    Raise OverflowError
          (mkWorld (self w) None (recv_calls w) (send_calls w) (time_calls w) (trace w)).
Proof.
  intros H. apply dump_None in H. split; [exact H |].
  unfold _send_segment, TCPSegment_dump, bind. cbn. now rewrite H.
Qed.

Lemma X1_dump_overflow_witness :
  dump oversized_segment = None /\
  _send_segment silent_peer oversized_segment initial_world =
    Raise OverflowError
          (mkWorld (self initial_world) None (recv_calls initial_world)
                   (send_calls initial_world) (time_calls initial_world)
                   (trace initial_world)).
Proof.
  apply (X1_dump_overflow silent_peer oversized_segment initial_world).
  cbn. lia.
Defined.

Lemma byte_of_Z_mod (z : Z) : byte_of_Z (z mod 256) = byte_of_Z z.
Proof. unfold byte_of_Z. now rewrite Z.mod_mod by lia. Qed.

Lemma be_digits_from_bytes (h : bytes) :
  be_digits (length h) (from_bytes h) = h.
Proof.
  induction h as [| b h IH] using rev_ind; [reflexivity |].
  rewrite length_app, Nat.add_comm. cbn [length Nat.add be_digits].
  rewrite from_bytes_snoc.
  pose proof (byte_val_range b) as Hb.
  replace ((from_bytes h * 256 + byte_val b) / 256) with (from_bytes h)
    by (apply Z.div_unique with (r := byte_val b); lia).
  rewrite IH. f_equal. f_equal.
  rewrite <- byte_of_Z_mod.
  replace ((from_bytes h * 256 + byte_val b) mod 256) with (byte_val b)
    by (apply Z.mod_unique with (q := from_bytes h); lia).
  apply byte_of_Z_val.
Qed.

Lemma load_fields_range (now : Z) (d : bytes) :
  0 <= seq_number (load now d) < 2 ^ 64 /\ 0 <= ack_number (load now d) < 2 ^ 64.
Proof.
  unfold load. cbn [seq_number ack_number].
  rewrite slice_to_firstn, slice_firstn_skipn by lia.
  pose proof (from_bytes_range (firstn (Z.to_nat 8) d)) as H1.
  pose proof (from_bytes_range (firstn (Z.to_nat (16 - 8)) (skipn (Z.to_nat 8) d))) as H2.
  assert (Hl1 : len (firstn (Z.to_nat 8) d) <= 8)
    by (unfold len; rewrite length_firstn; lia).
  assert (Hl2 : len (firstn (Z.to_nat (16 - 8)) (skipn (Z.to_nat 8) d)) <= 8)
    by (unfold len; rewrite length_firstn; lia).
  assert (Hp : forall k, 0 <= k <= 8 -> 256 ^ k <= 2 ^ 64).
  { intros k Hk. change (2 ^ 64) with (256 ^ 8). apply Z.pow_le_mono_r; lia. }
  pose proof (Hp _ (conj (len_nonneg _) Hl1)).
  pose proof (Hp _ (conj (len_nonneg _) Hl2)).
  lia.
Qed.

(** X2 — what [load] decodes, [dump] encodes.  Whatever the bytes, the
    fields [load] yields are unsigned 64-bit values, so [dump] of a decoded
    segment never raises; its result has the 16 header bytes and the
    decoded payload, [max(16, len d)] bytes in all. *)
Theorem X2_decoded_segment_encodes (now : Z) (d : bytes) :
  0 <= seq_number (load now d) < 2 ^ 64 /\
  0 <= ack_number (load now d) < 2 ^ 64 /\
  exists d', dump (load now d) = Some d' /\ len d' = Z.max 16 (len d).
Proof.
  destruct (load_fields_range now d) as [Hs Ha].
  split; [assumption |]. split; [assumption |].
  eexists. split; [apply dump_Some; assumption |].
  rewrite !len_app. unfold len at 1 2. rewrite !length_be_digits.
  unfold load. cbn [data]. rewrite len_slice_from by (unfold service_len; lia).
  unfold service_len. lia.
Qed.

(** X3 — decode, then encode.  On a datagram of at least 16 bytes, [dump]
    of the segment [load] decodes gives the datagram back, byte for
    byte. *)
Theorem X3_load_dump_roundtrip (now : Z) (d : bytes) :
  16 <= len d -> dump (load now d) = Some d.
Proof.
  intros Hlen.
  destruct (load_fields_range now d) as [Hs Ha].
  rewrite dump_Some by assumption.
  unfold load. cbn [seq_number ack_number data].
  rewrite slice_to_firstn, slice_firstn_skipn, slice_from_skipn
    by (unfold service_len; lia).
  change (Z.to_nat 8) with 8%nat. change (Z.to_nat (16 - 8)) with 8%nat.
  change (Z.to_nat service_len) with (8 + 8)%nat.
  assert (L1 : length (firstn 8 d) = 8%nat)
    by (rewrite length_firstn; unfold len in Hlen; lia).
  assert (L2 : length (firstn 8 (skipn 8 d)) = 8%nat)
    by (rewrite length_firstn, length_skipn; unfold len in Hlen; lia).
  pose proof (be_digits_from_bytes (firstn 8 d)) as E1. rewrite L1 in E1.
  pose proof (be_digits_from_bytes (firstn 8 (skipn 8 d))) as E2. rewrite L2 in E2.
  rewrite E1, E2.
  rewrite <- skipn_skipn, firstn_skipn, firstn_skipn. reflexivity.
Qed.

Lemma X3_load_dump_roundtrip_witness :
  dump (load 7 (datagram 1500 3000 hello)) = Some (datagram 1500 3000 hello).
Proof.
  apply (X3_load_dump_roundtrip 7 (datagram 1500 3000 hello)).
  vm_compute. discriminate.
Defined.

(* ------------------------------------------------------------------ *)
(** ** The order of the queues and the pruning of the send window *)

(** X4 — the order the queues use.  [TCPSegment.__lt__], and with it the
    order of the tuples [(seq_number, segment)], is a strict order:
    nothing is below itself and the order is transitive.  On tuples keyed
    by their segment's [seq_number] it is the order of the keys alone: two
    such tuples with the same key are not ordered either way, whatever
    their payloads. *)
Theorem X4_tuple_order (a b c : entry) :
  entry_lt a a = false /\
  (entry_lt a b = true -> entry_lt b c = true -> entry_lt a c = true) /\
  (entry_lt a b = true -> entry_lt b a = false) /\
  (keyed a -> keyed b -> entry_lt a b = (fst a <? fst b)) /\
  (keyed a -> keyed b -> fst a = fst b -> entry_lt a b = false /\ entry_lt b a = false).
Proof.
  unfold entry_lt, segment_lt, keyed.
  repeat split; intros; lia.
Qed.

Lemma prune_send_window_split (c : Z) (q : PriorityQueue) :
  exists removed,
    q = removed ++ prune_send_window c q /\
    Forall (fun e => fst e < c) removed /\
    match prune_send_window c q with
    | [] => True
    | e :: _ => c <= fst e
    end.
Proof.
  induction q as [| [k s] q IH]; cbn.
  - exists []. repeat split; constructor.
  - destruct (Z.ltb_spec k c) as [Hlt | Hge].
    + destruct IH as (removed & Hq & Hall & Hhead).
      exists ((k, s) :: removed). split; [cbn; now rewrite <- Hq |].
      split; [now constructor | assumption].
    + exists []. split; [reflexivity |]. split; [constructor | assumption].
Qed.

Lemma prune_send_window_kept (c : Z) (q : PriorityQueue) :
  key_ordered q -> Forall (fun e => c <= fst e) (prune_send_window c q).
Proof.
  induction 1 as [| [k s] q Hq IH Hle]; cbn; [constructor |].
  destruct (Z.ltb_spec k c) as [Hlt | Hge]; [assumption |].
  constructor; [assumption |].
  eapply Forall_impl; [| exact Hle]. cbn. intros; lia.
Qed.

Lemma prune_send_window_filter (c : Z) (q : PriorityQueue) :
  key_ordered q ->
  prune_send_window c q = filter (fun e => negb (fst e <? c)) q.
Proof.
  induction 1 as [| [k s] q Hq IH Hle]; cbn; [reflexivity |].
  destruct (Z.ltb_spec k c) as [Hlt | Hge]; cbn; [assumption |].
  f_equal. symmetry. apply forallb_filter_id.
  apply forallb_forall. rewrite Forall_forall in Hle.
  intros e He. specialize (Hle e He). cbn in Hle.
  destruct (Z.ltb_spec (fst e) c); [lia | reflexivity].
Qed.

(** X5 — what [_process_send_window] removes.  On a send window in key
    order the call removes exactly the segments whose key is below
    [confirmed_bytes] and keeps the others in their order: what is left is
    the window filtered by [key >= confirmed_bytes].  It touches nothing
    else: not the counters, the receive window, the buffer or the
    socket. *)
Theorem X5_process_send_window (w : World) :
  key_ordered (_send_window (self w)) ->
  exists w' removed,
    _process_send_window w = Ret tt w' /\
    _send_window (self w) = removed ++ _send_window (self w') /\
    Forall (fun e => fst e < _confirmed_bytes_n (self w)) removed /\
    Forall (fun e => _confirmed_bytes_n (self w) <= fst e) (_send_window (self w')) /\
    _send_window (self w') =
      filter (fun e => negb (fst e <? _confirmed_bytes_n (self w))) (_send_window (self w)) /\
    set_send_window (_send_window (self w)) (self w') = self w /\
    trace w' = trace w /\ recv_calls w' = recv_calls w /\
    send_calls w' = send_calls w /\ time_calls w' = time_calls w.
Proof.
  intros Hq.
  destruct (prune_send_window_split (_confirmed_bytes_n (self w)) (_send_window (self w)))
    as (removed & Hsplit & Hrem & _).
  eexists _, removed. split; [reflexivity |]. cbn.
  split; [exact Hsplit |]. split; [exact Hrem |].
  split; [now apply prune_send_window_kept |].
  split; [now apply prune_send_window_filter |].
  split; [now destruct (self w) | auto].
Qed.

Lemma X5_process_send_window_witness :
  exists w' removed,
    _process_send_window three_in_flight_world = Ret tt w' /\
    _send_window (self three_in_flight_world) = removed ++ _send_window (self w') /\
    Forall (fun e => fst e < _confirmed_bytes_n (self three_in_flight_world)) removed /\
    Forall (fun e => _confirmed_bytes_n (self three_in_flight_world) <= fst e)
           (_send_window (self w')) /\
    _send_window (self w') =
      filter (fun e => negb (fst e <? _confirmed_bytes_n (self three_in_flight_world)))
             (_send_window (self three_in_flight_world)) /\
    set_send_window (_send_window (self three_in_flight_world)) (self w') =
      self three_in_flight_world /\
    trace w' = trace three_in_flight_world /\
    recv_calls w' = recv_calls three_in_flight_world /\
    send_calls w' = send_calls three_in_flight_world /\
    time_calls w' = time_calls three_in_flight_world.
Proof.
  apply (X5_process_send_window three_in_flight_world).
  repeat constructor; cbn; lia.
Defined.

(** X6 — pruning is cumulative.  On a send window in key order, pruning
    for an acknowledgment [b] and then for an acknowledgment [a] leaves
    what pruning for the larger of the two leaves: a stale acknowledgment
    that follows a newer one removes nothing more, and a repeated one
    changes nothing. *)
Theorem X6_prune_cumulative (a b : Z) (q : PriorityQueue) :
  key_ordered q ->
  prune_send_window a (prune_send_window b q) = prune_send_window (Z.max a b) q /\
  prune_send_window a (prune_send_window a q) = prune_send_window a q.
Proof.
  intros Hq.
  assert (Hkept : forall c, key_ordered (prune_send_window c q)).
  { intros c. rewrite prune_send_window_filter by assumption.
    clear -Hq. induction Hq as [| e q Hq IH Hle]; cbn; [constructor |].
    destruct (negb _); [| assumption].
    constructor; [assumption |].
    apply Forall_forall. intros x Hx. apply filter_In in Hx as [Hx _].
    rewrite Forall_forall in Hle. now apply Hle. }
  assert (Hcomp : forall x y,
             prune_send_window x (prune_send_window y q) = prune_send_window (Z.max x y) q).
  { intros x y. rewrite (prune_send_window_filter x) by apply Hkept.
    rewrite !prune_send_window_filter by assumption.
    clear. induction q as [| e q IH]; cbn; [reflexivity |].
    destruct (Z.ltb_spec (fst e) y); destruct (Z.ltb_spec (fst e) (Z.max x y));
      cbn; try lia; try assumption;
      destruct (Z.ltb_spec (fst e) x); cbn; try lia; try assumption.
    now f_equal. }
  split; [apply Hcomp |]. rewrite Hcomp. now rewrite Z.max_id.
Qed.

Lemma X6_prune_cumulative_witness :
  prune_send_window 1 (prune_send_window 3 three_in_flight) =
    prune_send_window (Z.max 1 3) three_in_flight /\
  prune_send_window 1 (prune_send_window 1 three_in_flight) =
    prune_send_window 1 three_in_flight.
Proof.
  apply (X6_prune_cumulative 1 3 three_in_flight).
  repeat constructor; cbn; lia.
Defined.

(* ------------------------------------------------------------------ *)
(** ** An invariant principle that knows what arrives

    The same principle as above, for properties that depend on the
    datagrams the environment delivers: the rule for a delivery is asked
    only of segments decoded from a datagram of the environment, cut to
    [mss + service_len] bytes and with a payload; the rule for the read
    buffer only of the removal of a prefix, as [recv] does it. *)

Section ArrivalPrinciple.

Variable env : Env.
Variable I : MyTCPProtocol -> list Event -> Prop.
Variable T : option Z -> Prop.

Hypothesis A_recvfrom : forall p tr t k,
  T t -> I p tr -> I p (EvRecvfrom t (recvfrom_outcome env k) :: tr).

Hypothesis A_pop : forall p tr e rest,
  I p tr -> _send_window p = e :: rest -> I (set_send_window rest p) tr.

Hypothesis A_resend : forall p tr k s rest d r j now,
  I p tr -> _send_window p = (k, s) :: rest ->
  dump s = Some d -> sendto_outcome env j d = r ->
  I (match r with
     | SendError => set_send_window rest p
     | SendReturns n => send_effect s n now (set_send_window rest p)
     end)
    (EvSendto d r (set_send_window rest p) :: tr).

Hypothesis A_send_ack : forall p tr t0 d r j now,
  I p tr ->
  dump (mkSegment (_sent_bytes_n p) (_received_bytes_n p) [] t0) = Some d ->
  sendto_outcome env j d = r ->
  I (match r with
     | SendError => p
     | SendReturns n =>
         send_effect (mkSegment (_sent_bytes_n p) (_received_bytes_n p) [] t0) n now p
     end)
    (EvSendto d r p :: tr).

Hypothesis A_deliver : forall p tr k d now,
  recvfrom_outcome env k = RecvDatagram d ->
  0 < len (data (load now (slice_to d (mss + service_len)))) ->
  I p tr ->
  I (process_recv_window
       (set_recv_window
          (put (seq_number (load now (slice_to d (mss + service_len))),
                load now (slice_to d (mss + service_len)))
               (_recv_window p)) p)) tr.

Hypothesis A_confirm : forall p tr a,
  I p tr ->
  I (set_send_window (prune_send_window a (_send_window p))
                     (set_confirmed_bytes_n a p)) tr.

Lemma arrival_receive (timeout : option Z) (w : World) :
  T timeout ->
  holds I w -> post (_receive_segment env timeout w) (fun _ w' => holds I w') (holds I).
Proof.
  intros Ht H. unfold _receive_segment. cbn.
  apply post_bind. rewrite receive_attempt_eq. cbn.
  pose proof (A_recvfrom _ _ timeout (recv_calls w) Ht H) as Hrecv.
  destruct (recvfrom_outcome env (recv_calls w)) as [| | d] eqn:Er; cbn;
    try exact Hrecv.
  destruct (Z.gtb_spec (len (data (load (time_reading env (time_calls w))
                                        (slice_to d (mss + service_len))))) 0)
    as [Hpos | Hnil]; mbind.
  - eapply post_weaken;
      [apply (holds_send_ack env I A_send_ack); try reflexivity | | trivial].
    + unfold holds. cbn. eapply A_deliver; [exact Er | lia | exact Hrecv].
    + cbn. intros _ w' Hw'. apply A_confirm, Hw'.
  - apply A_confirm, Hrecv.
Qed.

Hypothesis A_send_data : forall p tr payload t0 d r j now,
  I p tr ->
  0 < len payload <= mss ->
  dump (mkSegment (_sent_bytes_n p) (_received_bytes_n p) payload t0) = Some d ->
  sendto_outcome env j d = r ->
  I (match r with
     | SendError => p
     | SendReturns n =>
         send_effect (mkSegment (_sent_bytes_n p) (_received_bytes_n p) payload t0) n now p
     end)
    (EvSendto d r p :: tr).

Hypothesis T_send : T (Some ack_timeout).

Lemma arrival_send_iteration (l : SendLocals) (w : World) :
  holds I w -> post (send_iteration env l w) (fun _ w' => holds I w') (holds I).
Proof.
  intros H. unfold send_iteration. mbind.
  destruct (negb _ && truthy (l_data l)) eqn:Hbranch; mbind.
  - apply andb_prop in Hbranch as [_ Htruthy]. apply truthy_len in Htruthy.
    assert (Hpayload : 0 < len (slice_to (l_data l) (Z.min mss (len (l_data l)))) <= mss)
      by (rewrite len_slice_to by (unfold mss; lia); unfold mss; lia).
    eapply (post_weaken _ (fun _ w' => holds I w') _ (holds I));
      [apply _send_segment_post; unfold holds; cbn | | trivial].
    + intros _. exact H.
    + intros d Hd Hs. exact (A_send_data _ _ _ _ _ _ _ 0 H Hpayload Hd Hs).
    + intros d n Hd Hs. exact (A_send_data _ _ _ _ _ _ _ _ H Hpayload Hd Hs).
    + cbn. intros sent_length w' Hw'. mbind.
      eapply post_weaken;
        [apply (holds_resend env I A_pop A_resend); exact Hw' | cbn; trivial | trivial].
  - eapply post_weaken; [apply arrival_receive; [exact T_send | exact H] | | trivial].
    cbn. intros ok w' Hw'. mbind.
    eapply post_weaken;
      [apply (holds_resend env I A_pop A_resend); exact Hw' | cbn; trivial | trivial].
Qed.

Lemma arrival_send_loop (fuel : nat) (l : SendLocals) (w : World) :
  holds I w -> post (send_loop env fuel l w) (fun _ w' => holds I w') (holds I).
Proof.
  revert l w. induction fuel as [| fuel IH]; intros l w H;
    rewrite send_loop_eq; destruct (send_continues (self w) l); cbn; trivial.
  apply post_bind.
  eapply post_weaken; [apply arrival_send_iteration; exact H | | trivial].
  cbn. intros l' w' Hw'. now apply IH.
Qed.

Lemma arrival_send (fuel : nat) (d : bytes) (w : World) :
  holds I w -> holds I (final_world (send env fuel d w)).
Proof.
  intros H. apply post_final. unfold send. apply post_bind.
  eapply post_weaken; [apply arrival_send_loop; exact H | cbn; trivial | trivial].
Qed.

Hypothesis T_recv : T None.

Hypothesis A_buffer : forall p tr k,
  I p tr -> I (set_buffer (slice_from (_buffer p) k) p) tr.

Lemma arrival_recv_loop (fuel : nat) (n : Z) (d : bytes) (w : World) :
  holds I w -> post (recv_loop env fuel n d w) (fun _ w' => holds I w') (holds I).
Proof.
  revert d w. induction fuel as [| fuel IH]; intros d w H;
    rewrite recv_loop_eq; destruct (len d <? n); cbn; trivial.
  apply post_bind.
  eapply post_weaken; [apply arrival_receive; [exact T_recv | exact H] | | trivial].
  cbn. intros ok w' Hw'. destruct ok; cbn; [| exact Hw'].
  apply IH. unfold holds. cbn. apply A_buffer, Hw'.
Qed.

Lemma arrival_recv (fuel : nat) (n : Z) (w : World) :
  holds I w -> holds I (final_world (recv env fuel n w)).
Proof.
  intros H. apply post_final. unfold recv. mbind.
  apply arrival_recv_loop. unfold holds. cbn. apply A_buffer, H.
Qed.

Hypothesis A_init : I init [].

Lemma arrival_reachable (w : World) : reachable env w -> holds I w.
Proof.
  induction 1 as [| w fuel d _ IH | w fuel n _ IH].
  - exact A_init.
  - now apply arrival_send.
  - now apply arrival_recv.
Qed.

End ArrivalPrinciple.

(* ------------------------------------------------------------------ *)
(** ** The two windows of a reachable endpoint *)

Lemma drain_recv_window_incl (q : PriorityQueue) (received : Z) (buffer : bytes) (x : entry) :
  In x (fst (fst (drain_recv_window q received buffer))) -> In x q.
Proof.
  revert received buffer. induction q as [| [k s] q IH]; intros received buffer; cbn.
  - trivial.
  - destruct (seq_number s =? received); [intros H; right; eapply IH, H |].
    destruct (seq_number s >? received); cbn.
    + intros H. apply put_In in H. destruct H as [-> | H]; auto.
    + intros H; right; eapply IH, H.
Qed.

Lemma len_load_payload (now : Z) (d : bytes) :
  len (data (load now (slice_to d (mss + service_len)))) <= mss.
Proof.
  unfold load. cbn [data].
  rewrite len_slice_from by (unfold service_len; lia).
  rewrite len_slice_to by (unfold mss, service_len; lia).
  pose proof (len_nonneg d). unfold mss, service_len in *. lia.
Qed.

Lemma recv_window_ok_reachable (env : Env) (w : World) :
  reachable env w -> recv_window_ok (self w).
Proof.
  apply (arrival_reachable env (fun p _ => recv_window_ok p) (fun _ => True));
    unfold recv_window_ok; trivial.
  - intros p _ k s rest d r j now H _ _ _. destruct r as [| n]; [exact H |].
    destruct (send_effect_other s n now (set_send_window rest p)) as (_ & -> & -> & _).
    exact H.
  - intros p _ t0 d r j now H _ _. destruct r as [| n]; [exact H |].
    destruct (send_effect_other (mkSegment (_sent_bytes_n p) (_received_bytes_n p) [] t0)
                                n now p) as (_ & -> & -> & _).
    exact H.
  - intros p _ k d now _ Hpos [Hok Hall].
    set (s := load now (slice_to d (mss + service_len))) in *.
    unfold process_recv_window. cbn.
    pose proof (drain_recv_window_spec (put (seq_number s, s) (_recv_window p))
                  (_received_bytes_n p) (_buffer p)) as Hspec.
    pose proof (drain_recv_window_incl (put (seq_number s, s) (_recv_window p))
                  (_received_bytes_n p) (_buffer p)) as Hincl.
    destruct (drain_recv_window _ _ _) as [[q' r'] b']. cbn in *.
    destruct Hspec as (_ & Hq' & Hgt & _); [apply put_ok; [reflexivity | assumption] |].
    split; [assumption |].
    rewrite Forall_forall in *. intros x Hx. split; [now apply Hgt |].
    apply Hincl, put_In in Hx. destruct Hx as [-> | Hx].
    + cbn. split; [assumption | apply len_load_payload].
    + now apply Hall.
  - intros p _ payload t0 d r j now H _ _ _. destruct r as [| n]; [exact H |].
    destruct (send_effect_other (mkSegment (_sent_bytes_n p) (_received_bytes_n p)
                                           payload t0) n now p) as (_ & -> & -> & _).
    exact H.
  - split; [split |]; constructor.
Qed.

(** X7 — the receive window.  In every reachable state the receive window
    is in key order, every tuple is keyed by its segment's [seq_number],
    and every segment in it lies strictly beyond [received_bytes] and
    carries between 1 and [mss] payload bytes: a pure acknowledgment, a
    deliverable segment or a stale one is never left in it, and
    [recvfrom]'s limit of [mss + 16] bytes bounds every payload. *)
Theorem X7_recv_window_invariant (env : Env) (w : World) :
  reachable env w ->
  pq_ok (_recv_window (self w)) /\
  Forall (fun e => _received_bytes_n (self w) < seq_number (snd e) /\
                   0 < len (data (snd e)) <= mss)
         (_recv_window (self w)).
Proof. apply recv_window_ok_reachable. Qed.

Lemma X7_recv_window_invariant_witness :
  pq_ok (_recv_window (self (final_world (recv crossing 5 1 initial_world)))) /\
  Forall (fun e =>
            _received_bytes_n (self (final_world (recv crossing 5 1 initial_world)))
              < seq_number (snd e) /\
            0 < len (data (snd e)) <= mss)
         (_recv_window (self (final_world (recv crossing 5 1 initial_world)))).
Proof.
  apply (X7_recv_window_invariant crossing).
  apply reachable_recv, reachable_init.
Defined.

Lemma put_first (e : entry) (q : PriorityQueue) :
  Forall (fun x => fst e < fst x) q -> put e q = e :: q.
Proof.
  destruct q as [| h t]; [reflexivity |]. intros H. inversion H; subst. cbn.
  replace (entry_lt e h) with true; [reflexivity |]. unfold entry_lt. lia.
Qed.

Lemma put_last (e : entry) (q : PriorityQueue) :
  Forall (fun x => fst x < fst e) q -> put e q = q ++ [e].
Proof.
  induction 1 as [| h t Hh Ht IH]; [reflexivity |]. cbn.
  replace (entry_lt e h) with false; [now rewrite IH |]. unfold entry_lt. lia.
Qed.

Lemma StronglySorted_snoc {A : Type} (R : A -> A -> Prop) (q : list A) (e : A) :
  StronglySorted R q -> Forall (fun x => R x e) q -> StronglySorted R (q ++ [e]).
Proof.
  induction 1 as [| h t Ht IH Hh]; intros He; cbn.
  - repeat constructor.
  - inversion He; subst. constructor; [now apply IH |].
    apply Forall_app. split; [assumption | now constructor].
Qed.

Lemma prune_send_window_sorted {R : entry -> entry -> Prop} (c : Z) (q : PriorityQueue) :
  StronglySorted R q -> StronglySorted R (prune_send_window c q).
Proof.
  induction 1 as [| [k s] q Hq IH Hle]; cbn; [constructor |].
  destruct (k <? c); [assumption | now constructor].
Qed.

Lemma send_window_ok_pop (p : MyTCPProtocol) (e : entry) (rest : PriorityQueue) :
  send_window_ok p -> _send_window p = e :: rest ->
  send_window_ok (set_send_window rest p).
Proof.
  intros (H0 & Hk & Hs & Hb) E. rewrite E in *.
  inversion Hk; inversion Hs; inversion Hb; subst.
  repeat split; assumption.
Qed.

Lemma send_window_ok_resend (p : MyTCPProtocol) (k : Z) (s : TCPSegment)
  (rest : PriorityQueue) (n now : Z) :
  send_window_ok p -> _send_window p = (k, s) :: rest ->
  send_window_ok (send_effect s n now (set_send_window rest p)).
Proof.
  intros Hp E. pose proof (send_window_ok_pop _ _ _ Hp E) as (H0 & Hk & Hs & Hb).
  destruct Hp as (_ & Hk0 & Hs0 & Hb0). rewrite E in *.
  inversion Hk0 as [| ? ? Hkey _]; inversion Hs0 as [| ? ? _ Hbefore];
    inversion Hb0 as [| ? ? (Hseq & Hlen & Hend) _]; subst.
  cbn in Hkey, Hseq, Hlen, Hend, H0, Hk, Hs, Hb.
  unfold send_window_ok.
  rewrite send_effect_sent, send_effect_window. cbn.
  destruct (Z.eqb_spec (seq_number s) (_sent_bytes_n p)); [lia |].
  destruct (Z.gtb_spec (n - service_len) 0) as [Hpos | Hneg];
    [| repeat split; assumption].
  set (s' := mkSegment (seq_number s) (ack_number s)
                       (slice_to (data s) (n - service_len)) now).
  assert (Hlen' : 0 < len (data s') <= len (data s)).
  { cbn. rewrite len_slice_to by lia. lia. }
  rewrite put_first.
  - split; [assumption |]. split; [constructor; [reflexivity | assumption] |].
    split.
    + constructor; [assumption |].
      eapply Forall_impl; [| exact Hbefore]. unfold range_before. cbn.
      intros x Hx. cbn in Hlen'. lia.
    + constructor; [cbn in *; lia | assumption].
  - rewrite Forall_forall in *. intros x Hx. cbn.
    rewrite (Hk x Hx). specialize (Hbefore x Hx). unfold range_before in Hbefore.
    cbn in Hbefore. lia.
Qed.

Lemma send_window_ok_send_new (p : MyTCPProtocol) (payload : bytes) (t0 n now : Z) :
  send_window_ok p -> len payload <= mss ->
  service_len <= n <= service_len + len payload ->
  send_window_ok
    (send_effect (mkSegment (_sent_bytes_n p) (_received_bytes_n p) payload t0) n now p).
Proof.
  intros (H0 & Hk & Hs & Hb) Hmss Hn.
  unfold send_window_ok.
  rewrite send_effect_sent, send_effect_window. cbn. rewrite Z.eqb_refl.
  assert (Hold : Forall (fun e => 0 <= seq_number (snd e) /\
                                  0 < len (data (snd e)) <= mss /\
                                  seq_number (snd e) + len (data (snd e))
                                    <= _sent_bytes_n p + (n - service_len))
                        (_send_window p)).
  { eapply Forall_impl; [| exact Hb]. cbn. intros e (? & ? & ?). repeat split; lia. }
  destruct (Z.gtb_spec (n - service_len) 0) as [Hpos | Hneg];
    [| repeat split; try assumption; lia].
  set (s' := mkSegment (_sent_bytes_n p) (_received_bytes_n p)
                       (slice_to payload (n - service_len)) now).
  assert (Hlen' : len (data s') = n - service_len).
  { cbn. rewrite len_slice_to by lia. lia. }
  rewrite put_last.
  - split; [lia |]. split; [apply Forall_app; split; [assumption | now repeat constructor] |].
    split.
    + apply StronglySorted_snoc; [assumption |].
      eapply Forall_impl; [| exact Hb]. unfold range_before. cbn. intros e (? & ? & ?). lia.
    + apply Forall_app. split; [assumption |]. constructor; [| constructor].
      cbn in *. lia.
  - rewrite Forall_forall in *. intros x Hx. cbn.
    rewrite (Hk x Hx). specialize (Hb x Hx). cbn in Hb. lia.
Qed.

Lemma send_window_ok_reachable (env : Env) (w : World) :
  sendto_sane env -> reachable env w -> send_window_ok (self w).
Proof.
  intros Hsane.
  apply (arrival_reachable env (fun p _ => send_window_ok p) (fun _ => True)); trivial.
  - intros p _ e rest H E. eapply send_window_ok_pop; eassumption.
  - intros p _ k s rest d r j now H E _ _.
    destruct r as [| n]; [eapply send_window_ok_pop; eassumption |].
    eapply send_window_ok_resend; eassumption.
  - intros p _ t0 d r j now H Hd Hr. destruct r as [| n]; [exact H |].
    apply send_window_ok_send_new; [assumption | rewrite len_nil; unfold mss; lia |].
    pose proof (len_dump _ _ Hd) as Hl. cbn in Hl.
    pose proof (Hsane j d n Hr (len_dump_ge _ _ Hd)). lia.
  - intros p _ k d now _ _ (H0 & Hk & Hs & Hb).
    set (p1 := set_recv_window _ p).
    destruct (process_recv_window_other p1) as (E1 & _ & E2).
    unfold send_window_ok. rewrite E1, E2. cbn. repeat split; assumption.
  - intros p _ a (H0 & Hk & Hs & Hb). unfold send_window_ok. cbn.
    split; [assumption |]. split; [now apply prune_send_window_Forall |].
    split; [now apply prune_send_window_sorted | now apply prune_send_window_Forall].
  - intros p _ payload t0 d r j now H [_ Hmss] Hd Hr. destruct r as [| n]; [exact H |].
    apply send_window_ok_send_new; [assumption | assumption |].
    pose proof (len_dump _ _ Hd) as Hl. cbn in Hl.
    pose proof (Hsane j d n Hr (len_dump_ge _ _ Hd)). lia.
  - unfold send_window_ok. cbn. split; [lia |]. repeat split; constructor.
Qed.

(** X8 — the send window.  Provided [sendto] reports between the header
    length and the datagram length: in every reachable state [sent_bytes]
    is not negative, every tuple of the send window is keyed by its
    segment's [seq_number], every segment carries between 1 and [mss]
    payload bytes that end at or before [sent_bytes], and the byte ranges
    of the segments follow one another without overlap, so the keys
    increase strictly. *)
Theorem X8_send_window_invariant (env : Env) (w : World) :
  sendto_sane env ->
  reachable env w ->
  0 <= _sent_bytes_n (self w) /\
  Forall keyed (_send_window (self w)) /\
  StronglySorted range_before (_send_window (self w)) /\
  Forall (fun e => 0 <= seq_number (snd e) /\
                   0 < len (data (snd e)) <= mss /\
                   seq_number (snd e) + len (data (snd e)) <= _sent_bytes_n (self w))
         (_send_window (self w)) /\
  StronglySorted (fun a b => fst a < fst b) (_send_window (self w)).
Proof.
  intros Hsane Hw.
  destruct (send_window_ok_reachable env w Hsane Hw) as (H0 & Hk & Hs & Hb).
  repeat (split; [assumption |]).
  revert Hk Hs Hb. generalize (_send_window (self w)) as q.
  induction q as [| e q IH]; intros Hk Hs Hb; [constructor |].
  inversion Hk as [| ? ? Hke Hkq]; inversion Hs as [| ? ? Hsq Hbefore];
    inversion Hb as [| ? ? (_ & Hlen & _) Hbq]; subst.
  constructor; [now apply IH |].
  rewrite Forall_forall in *. intros x Hx.
  rewrite Hke, (Hkq x Hx). specialize (Hbefore x Hx). unfold range_before in Hbefore. lia.
Qed.

Lemma X8_send_window_invariant_witness :
  0 <= _sent_bytes_n (self (final_world (send silent_peer 30 hello initial_world))) /\
  Forall keyed (_send_window (self (final_world (send silent_peer 30 hello initial_world)))) /\
  StronglySorted range_before
    (_send_window (self (final_world (send silent_peer 30 hello initial_world)))) /\
  Forall (fun e => 0 <= seq_number (snd e) /\
                   0 < len (data (snd e)) <= mss /\
                   seq_number (snd e) + len (data (snd e))
                     <= _sent_bytes_n (self (final_world
                                               (send silent_peer 30 hello initial_world))))
         (_send_window (self (final_world (send silent_peer 30 hello initial_world)))) /\
  StronglySorted (fun a b => fst a < fst b)
    (_send_window (self (final_world (send silent_peer 30 hello initial_world)))).
Proof.
  apply (X8_send_window_invariant silent_peer).
  - intros k d n H Hd. cbn in H. injection H as <-. lia.
  - apply reachable_send, reachable_init.
Defined.


(* ------------------------------------------------------------------ *)
(** ** The size of outgoing datagrams *)

Lemma datagram_fits_reachable (env : Env) (w : World) :
  reachable env w ->
  Forall (fun e => len (data (snd e)) <= mss) (_send_window (self w)) /\
  Forall datagram_fits (trace w).
Proof.
  assert (Hput : forall (s : TCPSegment) n now (p : MyTCPProtocol),
             len (data s) <= mss ->
             Forall (fun e => len (data (snd e)) <= mss) (_send_window p) ->
             Forall (fun e => len (data (snd e)) <= mss)
                    (_send_window (send_effect s n now p))).
  { intros s n now p Hs Hp. rewrite send_effect_window.
    destruct (Z.gtb_spec (n - service_len) 0) as [Hpos | _]; [| assumption].
    apply put_Forall; [| assumption]. cbn. rewrite len_slice_to by lia. lia. }
  assert (Hfit : forall (s : TCPSegment) d,
             len (data s) <= mss -> dump s = Some d ->
             service_len <= len d <= mss + service_len).
  { intros s d Hs Hd. pose proof (len_dump _ _ Hd). pose proof (len_nonneg (data s)). lia. }
  apply (arrival_reachable env
           (fun p tr => Forall (fun e => len (data (snd e)) <= mss) (_send_window p) /\
                        Forall datagram_fits tr)
           (fun _ => True)); trivial.
  - intros p tr t k _ [H1 H2]. split; [assumption | constructor; [exact I | assumption]].
  - intros p tr e rest [H1 H2] E. rewrite E in H1. inversion H1; subst. now split.
  - intros p tr k s rest d r j now [H1 H2] E Hd _. rewrite E in H1.
    inversion H1 as [| ? ? Hs Hrest]; subst. cbn in Hs. split.
    + destruct r as [| n]; [assumption | now apply Hput].
    + constructor; [cbn; now apply (Hfit s) | assumption].
  - intros p tr t0 d r j now [H1 H2] Hd _.
    assert (Hnil : len (@nil byte) <= mss) by (rewrite len_nil; unfold mss; lia).
    split.
    + destruct r as [| n]; [assumption | now apply Hput].
    + constructor; [cbn; eapply Hfit; [| exact Hd]; exact Hnil | assumption].
  - intros p tr k d now _ _ [H1 H2]. split; [| assumption].
    destruct (process_recv_window_other
                (set_recv_window
                   (put (seq_number (load now (slice_to d (mss + service_len))),
                         load now (slice_to d (mss + service_len))) (_recv_window p)) p))
      as (_ & _ & ->).
    exact H1.
  - intros p tr a [H1 H2]. split; [now apply prune_send_window_Forall | assumption].
  - intros p tr payload t0 d r j now [H1 H2] [_ Hmss] Hd _. split.
    + destruct r as [| n]; [assumption | now apply Hput].
    + constructor; [cbn; eapply Hfit; [| exact Hd]; exact Hmss | assumption].
  - split; constructor.
Qed.

(** X9 — datagram sizes.  Whatever the network and the socket do, every
    datagram the endpoint hands to [sendto] (a new segment cut by [send],
    a retransmission of a stored segment, an acknowledgment) has the 16
    header bytes and at most [mss] payload bytes, so its length lies
    between 16 and [mss + 16], the limit the peer gives to [recvfrom]. *)
Theorem X9_datagram_size (env : Env) (w : World) :
  reachable env w -> Forall datagram_fits (trace w).
Proof. intros H. now apply datagram_fits_reachable in H. Qed.

Lemma X9_datagram_size_witness :
  Forall datagram_fits (trace (final_world (send silent_peer 30 hello initial_world))).
Proof.
  apply (X9_datagram_size silent_peer).
  apply reachable_send, reachable_init.
Defined.

(* ------------------------------------------------------------------ *)
(** ** The read buffer *)

Lemma appended_refl (p : MyTCPProtocol) : appended p p.
Proof. exists []. rewrite app_nil_r, len_nil. split; [reflexivity | lia]. Qed.

Lemma drain_recv_window_appends (q : PriorityQueue) (received : Z) (buffer : bytes) :
  exists delivered,
    snd (drain_recv_window q received buffer) = buffer ++ delivered /\
    snd (fst (drain_recv_window q received buffer)) = received + len delivered.
Proof.
  revert received buffer. induction q as [| [k s] q IH]; intros received buffer; cbn.
  - exists []. rewrite app_nil_r, len_nil. split; [reflexivity | lia].
  - destruct (seq_number s =? received).
    + destruct (IH (received + len (data s)) (buffer ++ data s)) as (dl & -> & ->).
      exists (data s ++ dl). rewrite len_app, app_assoc. split; [reflexivity | lia].
    + destruct (seq_number s >? received); [| apply IH].
      exists []. cbn. rewrite app_nil_r, len_nil. split; [reflexivity | lia].
Qed.

Lemma appended_process_recv_window (p0 p : MyTCPProtocol) (q : PriorityQueue) :
  appended p0 p -> appended p0 (process_recv_window (set_recv_window q p)).
Proof.
  intros (dl & Hb & Hr). unfold process_recv_window. cbn.
  destruct (drain_recv_window_appends q (_received_bytes_n p) (_buffer p)) as (dl' & Hb' & Hr').
  destruct (drain_recv_window _ _ _) as [[q' r'] b']. cbn in *. subst b' r'.
  exists (dl ++ dl'). cbn. rewrite Hb, Hr, len_app, app_assoc. split; [reflexivity | lia].
Qed.

Lemma appended_send_effect (p0 p : MyTCPProtocol) (s : TCPSegment) (n now : Z) :
  appended p0 p -> appended p0 (send_effect s n now p).
Proof.
  intros H. unfold appended.
  destruct (send_effect_other s n now p) as (_ & -> & _ & ->). exact H.
Qed.

Lemma appended_receive (env : Env) (timeout : option Z) (p0 : MyTCPProtocol) (w : World) :
  appended p0 (self w) ->
  post (_receive_segment env timeout w)
       (fun _ w' => appended p0 (self w')) (fun w' => appended p0 (self w')).
Proof.
  apply (arrival_receive env (fun p _ => appended p0 p) (fun _ => True)); trivial.
  - intros p _ t0 d r j now H _ _. destruct r; [exact H | now apply appended_send_effect].
  - intros p _ k d now _ _ H. now apply appended_process_recv_window.
Qed.

(** X10 — [send] only appends to the read buffer.  Whatever arrives while
    [send] runs, and however [send] ends, the read buffer afterwards is
    the read buffer before with bytes appended at its end, and
    [received_bytes] has grown by exactly the number of bytes appended: no
    byte waiting to be read is dropped, changed or reordered by [send], and
    [received_bytes] never decreases. *)
Theorem X10_send_appends_to_buffer (env : Env) (fuel : nat) (d : bytes) (w : World) :
  exists delivered,
    _buffer (self (final_world (send env fuel d w))) = _buffer (self w) ++ delivered /\
    _received_bytes_n (self (final_world (send env fuel d w))) =
      _received_bytes_n (self w) + len delivered.
Proof.
  apply (arrival_send env (fun p _ => appended (self w) p) (fun _ => True)); trivial.
  - intros p _ k s rest d0 r j now H _ _ _.
    destruct r; [exact H | apply appended_send_effect; exact H].
  - intros p _ t0 d0 r j now H _ _. destruct r; [exact H | now apply appended_send_effect].
  - intros p _ k d0 now _ _ H. now apply appended_process_recv_window.
  - intros p _ payload t0 d0 r j now H _ _ _.
    destruct r; [exact H | now apply appended_send_effect].
  - apply appended_refl.
Qed.

Lemma slice_to_from_len {A : Type} (l : list A) (k : Z) :
  slice_to l k ++ slice_from l (len (slice_to l k)) = l.
Proof.
  rewrite slice_from_skipn by apply len_nonneg.
  unfold slice_to, len. rewrite Nat2Z.id, length_firstn.
  assert (H : (slice_index (Z.of_nat (length l)) k <= length l)%nat)
    by (unfold slice_index; lia).
  rewrite Nat.min_l by assumption. apply firstn_skipn.
Qed.

Lemma recv_loop_conservation (env : Env) (p0 : MyTCPProtocol) (fuel : nat) (n : Z)
  (d : bytes) (w : World) :
  (exists delivered,
      d ++ _buffer (self w) = _buffer p0 ++ delivered /\
      _received_bytes_n (self w) = _received_bytes_n p0 + len delivered) ->
  post (recv_loop env fuel n d w)
       (fun d' w' =>
          exists delivered,
            d' ++ _buffer (self w') = _buffer p0 ++ delivered /\
            _received_bytes_n (self w') = _received_bytes_n p0 + len delivered)
       (fun w' =>
          exists taken delivered,
            taken ++ _buffer (self w') = _buffer p0 ++ delivered /\
            _received_bytes_n (self w') = _received_bytes_n p0 + len delivered).
Proof.
  revert d w. induction fuel as [| fuel IH]; intros d w H;
    rewrite recv_loop_eq; destruct (len d <? n); cbn; eauto.
  apply post_bind.
  destruct H as (dl & Hb & Hr).
  eapply post_weaken; [apply (appended_receive env None (self w)), appended_refl | |]; cbn.
  - intros ok w' (dl' & Hb' & Hr').
    assert (Hw' : d ++ _buffer (self w') = _buffer p0 ++ dl ++ dl' /\
                  _received_bytes_n (self w') = _received_bytes_n p0 + len (dl ++ dl')).
    { rewrite Hb', app_assoc, Hb, <- app_assoc, Hr', Hr, len_app. split; [reflexivity | lia]. }
    destruct ok; cbn; [| exists (dl ++ dl'); exact Hw'].
    apply IH. cbn. exists (dl ++ dl').
    rewrite <- app_assoc, slice_to_from_len. exact Hw'.
  - intros w' (dl' & Hb' & Hr'). exists d, (dl ++ dl').
    rewrite Hb', app_assoc, Hb, <- app_assoc, Hr', Hr, len_app. split; [reflexivity | lia].
Qed.

(** X11 — [recv] conserves the byte stream.  For every [n], negative ones
    included: when [recv(n)] returns [d], then [d] followed by the read
    buffer it leaves is the read buffer it found followed by the bytes
    delivered meanwhile, and [received_bytes] has grown by the number of
    those bytes.  So [recv] returns the oldest unread bytes in order and
    neither drops nor duplicates a byte.  When [recv] is left by an
    exception, the same holds of the bytes it had already taken out of the
    buffer, which the caller does not get. *)
Theorem X11_recv_conservation (env : Env) (fuel : nat) (n : Z) (w : World) :
  post (recv env fuel n w)
       (fun d w' =>
          exists delivered,
            d ++ _buffer (self w') = _buffer (self w) ++ delivered /\
            _received_bytes_n (self w') = _received_bytes_n (self w) + len delivered)
       (fun w' =>
          exists taken delivered,
            taken ++ _buffer (self w') = _buffer (self w) ++ delivered /\
            _received_bytes_n (self w') = _received_bytes_n (self w) + len delivered).
Proof.
  unfold recv. mbind. apply recv_loop_conservation. cbn.
  exists []. rewrite slice_to_from, app_nil_r, len_nil. split; [reflexivity | lia].
Qed.


(* ------------------------------------------------------------------ *)
(** ** Delivery in order *)

Lemma of_stream_extend (stream : bytes) (s : TCPSegment) :
  of_stream stream s ->
  seq_number s <= len stream ->
  seq_number s + len (data s) <= len stream /\
  slice_to stream (seq_number s) ++ data s = slice_to stream (seq_number s + len (data s)).
Proof.
  intros [H0 Hd] Hle. pose proof (len_nonneg (data s)) as HL.
  rewrite slice_firstn_skipn in Hd by lia.
  replace (seq_number s + len (data s) - seq_number s) with (len (data s)) in Hd by lia.
  assert (Hlen : len (data s) <= len stream - seq_number s).
  { pose proof (f_equal (@length byte) Hd) as Hl.
    rewrite length_firstn, length_skipn in Hl. unfold len in *. lia. }
  split; [lia |].
  rewrite slice_to_plus by lia. f_equal.
  rewrite slice_to_firstn, slice_from_skipn by lia. exact Hd.
Qed.

Lemma drain_recv_window_in_order (stream : bytes) (q : PriorityQueue) (received : Z)
  (buffer consumed : bytes) :
  Forall (fun e => of_stream stream (snd e)) q ->
  0 <= received <= len stream ->
  consumed ++ buffer = slice_to stream received ->
  Forall (fun e => of_stream stream (snd e)) (fst (fst (drain_recv_window q received buffer))) /\
  0 <= snd (fst (drain_recv_window q received buffer)) <= len stream /\
  consumed ++ snd (drain_recv_window q received buffer) =
    slice_to stream (snd (fst (drain_recv_window q received buffer))).
Proof.
  revert received buffer.
  induction q as [| [k s] q IH]; intros received buffer Hq Hr Hb; cbn.
  - auto.
  - inversion Hq as [| ? ? Hs Hq']; subst. cbn in Hs.
    destruct (Z.eqb_spec (seq_number s) received) as [E | _].
    + destruct (of_stream_extend stream s Hs) as [Hle Happ]; [lia |].
      pose proof (len_nonneg (data s)).
      apply IH; [assumption | lia |].
      rewrite app_assoc, Hb, <- E. exact Happ.
    + destruct (seq_number s >? received); cbn.
      * split; [apply put_Forall; assumption | auto].
      * now apply IH.
Qed.

Lemma delivered_in_order_reachable (stream : bytes) (env : Env) (w : World) :
  peer_streams stream env ->
  reachable env w ->
  delivered_in_order stream (self w) /\
  Forall (fun e => of_stream stream (snd e)) (_recv_window (self w)).
Proof.
  intros Hpeer.
  assert (Hsend : forall s n now p,
             delivered_in_order stream p /\
             Forall (fun e => of_stream stream (snd e)) (_recv_window p) ->
             delivered_in_order stream (send_effect s n now p) /\
             Forall (fun e => of_stream stream (snd e))
                    (_recv_window (send_effect s n now p))).
  { intros s n now p H. unfold delivered_in_order.
    destruct (send_effect_other s n now p) as (_ & -> & -> & ->). exact H. }
  apply (arrival_reachable env
           (fun p _ => delivered_in_order stream p /\
                       Forall (fun e => of_stream stream (snd e)) (_recv_window p))
           (fun _ => True)); trivial.
  - intros p _ k s rest d r j now H _ _ _. destruct r; [exact H | now apply Hsend].
  - intros p _ t0 d r j now H _ _. destruct r; [exact H | now apply Hsend].
  - intros p _ k d now Hk Hpos [[Hr [consumed Hb]] Hq].
    set (s := load now (slice_to d (mss + service_len))) in *.
    assert (Hq' : Forall (fun e => of_stream stream (snd e))
                         (put (seq_number s, s) (_recv_window p)))
      by (apply put_Forall; [exact (Hpeer k d now Hk Hpos) | assumption]).
    pose proof (drain_recv_window_in_order stream _ _ _ consumed Hq' Hr Hb) as H.
    unfold process_recv_window, delivered_in_order. cbn.
    destruct (drain_recv_window _ _ _) as [[q' r'] b']. cbn in *.
    destruct H as (H1 & H2 & H3). eauto.
  - intros p _ payload t0 d r j now H _ _ _. destruct r; [exact H | now apply Hsend].
  - intros p _ k [[Hr [consumed Hb]] Hq]. split; [| exact Hq].
    split; [exact Hr |]. exists (consumed ++ slice_to (_buffer p) k). cbn.
    now rewrite <- app_assoc, slice_to_from.
  - split; [| constructor]. split; [cbn; pose proof (len_nonneg stream); lia |].
    exists []. cbn. now rewrite slice_to_firstn by lia.
Qed.

(** X12 — delivery in order.  Suppose every datagram that arrives with a
    payload carries bytes of one byte stream of the peer at their offset
    [seq_number]; the network may lose, duplicate and reorder datagrams,
    segments may overlap, and pure acknowledgments are arbitrary.  Then in
    every reachable state of the endpoint [received_bytes] is at most the
    length of the stream and the first [received_bytes] bytes of the stream
    are exactly the bytes delivered: the read buffer is their end, what
    [recv] has taken out of it is their beginning.  Every segment still in
    the receive window carries bytes of the stream. *)
Theorem X12_delivery_in_order (stream : bytes) (env : Env) (w : World) :
  peer_streams stream env ->
  reachable env w ->
  0 <= _received_bytes_n (self w) <= len stream /\
  (exists consumed,
      consumed ++ _buffer (self w) = slice_to stream (_received_bytes_n (self w))) /\
  Forall (fun e => of_stream stream (snd e)) (_recv_window (self w)).
Proof.
  intros Hpeer Hw.
  destruct (delivered_in_order_reachable stream env w Hpeer Hw) as [[H1 H2] H3]. auto.
Qed.

Lemma X12_delivery_in_order_witness :
  0 <= _received_bytes_n (self (final_world (recv reordered 5 3 initial_world)))
    <= len ["a"; "b"; "c"]%byte /\
  (exists consumed,
      consumed ++ _buffer (self (final_world (recv reordered 5 3 initial_world))) =
      slice_to ["a"; "b"; "c"]%byte
               (_received_bytes_n (self (final_world (recv reordered 5 3 initial_world))))) /\
  Forall (fun e => of_stream ["a"; "b"; "c"]%byte (snd e))
         (_recv_window (self (final_world (recv reordered 5 3 initial_world)))).
Proof.
  apply (X12_delivery_in_order ["a"; "b"; "c"]%byte reordered).
  - intros k d now Hk _. cbn in Hk.
    destruct k as [| [| [| k]]]; cbn in Hk; try (destruct k; discriminate);
      injection Hk as <-; vm_compute; split; (discriminate || reflexivity).
  - apply reachable_recv, reachable_init.
Defined.


(* ------------------------------------------------------------------ *)
(** ** Arrivals that deliver nothing *)

Lemma drain_recv_window_waiting (q : PriorityQueue) (received : Z) (buffer : bytes) :
  Forall (fun e => received < seq_number (snd e)) q ->
  exists q', drain_recv_window q received buffer = (q', received, buffer) /\
             Permutation q' q.
Proof.
  destruct q as [| [k s] rest]; cbn; intros H.
  - exists []. split; [reflexivity | constructor].
  - inversion H as [| ? ? Hs _]; subst. cbn in Hs.
    destruct (Z.eqb_spec (seq_number s) received); [lia |].
    destruct (Z.gtb_spec (seq_number s) received); [| lia].
    eexists. split; [reflexivity | apply put_perm].
Qed.

Lemma process_recv_window_duplicate (p : MyTCPProtocol) (s : TCPSegment) :
  recv_window_ok p ->
  seq_number s < _received_bytes_n p ->
  read_side_kept p
    (process_recv_window (set_recv_window (put (seq_number s, s) (_recv_window p)) p)).
Proof.
  intros [[Hk _] Hall] Hs.
  assert (Hgt : Forall (fun e => _received_bytes_n p < seq_number (snd e)) (_recv_window p))
    by (eapply Forall_impl; [| exact Hall]; cbn; tauto).
  rewrite put_first.
  - unfold process_recv_window. cbn.
    destruct (Z.eqb_spec (seq_number s) (_received_bytes_n p)); [lia |].
    destruct (Z.gtb_spec (seq_number s) (_received_bytes_n p)); [lia |].
    destruct (drain_recv_window_waiting _ _ (_buffer p) Hgt) as (q' & -> & Hperm).
    repeat split. exact Hperm.
  - rewrite Forall_forall in *. intros x Hx. cbn.
    rewrite (Hk x Hx). specialize (Hgt x Hx). cbn in Hgt. lia.
Qed.

Lemma read_side_kept_send_effect (p p' : MyTCPProtocol) (s : TCPSegment) (n now : Z) :
  read_side_kept p p' -> read_side_kept p (send_effect s n now p').
Proof.
  unfold read_side_kept.
  destruct (send_effect_other s n now p') as (_ & -> & -> & ->). trivial.
Qed.

(** X13 — a duplicate is discarded and acknowledged again.  In a state
    whose receive window is [recv_window_ok], as it is in every reachable
    state, let a datagram arrive that carries payload and whose
    [seq_number] is below [received_bytes].
    Then [_receive_segment] delivers nothing: [received_bytes] and the read
    buffer stay as they are and the receive window keeps its segments.
    When it returns it returns [True], and it has handed exactly one
    datagram to [sendto], a pure acknowledgment whose [ack] field is the
    unchanged [received_bytes]. *)
Theorem X13_duplicate_segment (env : Env) (timeout : option Z) (w : World) (d : bytes) :
  recv_window_ok (self w) ->
  recvfrom_outcome env (recv_calls w) = RecvDatagram d ->
  0 < len (wire_payload (slice_to d (mss + service_len))) ->
  wire_seq (slice_to d (mss + service_len)) < _received_bytes_n (self w) ->
  post (_receive_segment env timeout w)
       (fun ok w' =>
          ok = true /\
          read_side_kept (self w) (self w') /\
          exists reply n p',
            trace w' = EvSendto reply (SendReturns n) p'
                         :: EvRecvfrom timeout (RecvDatagram d) :: trace w /\
            wire_ack reply = _received_bytes_n (self w) /\
            wire_payload reply = [])
       (fun w' => read_side_kept (self w) (self w')).
Proof.
  intros Hok Hd Hpos Hseq. unfold _receive_segment. cbn.
  apply post_bind. rewrite receive_attempt_eq. cbn. rewrite Hd. cbn.
  set (s := load (time_reading env (time_calls w)) (slice_to d (mss + service_len))).
  change (0 < len (data s)) in Hpos. change (seq_number s < _received_bytes_n (self w)) in Hseq.
  pose proof (process_recv_window_duplicate (self w) s Hok Hseq) as Hkept.
  destruct (Z.gtb_spec (len (data s)) 0); [| lia]. mbind.
  set (p1 := process_recv_window _) in *.
  apply _send_segment_post; cbn.
  - intros _. exact Hkept.
  - intros reply _ _. exact Hkept.
  - intros reply n Hreply _. split; [reflexivity |].
    split; [now apply read_side_kept_send_effect |].
    exists reply, n, p1. split; [reflexivity |].
    apply wire_fields_dump in Hreply as (_ & -> & ->). cbn.
    split; [apply Hkept | reflexivity].
Qed.

Lemma X13_duplicate_segment_witness :
  post (_receive_segment reordered None (final_world (recv reordered 5 3 initial_world)))
       (fun ok w' =>
          ok = true /\
          read_side_kept (self (final_world (recv reordered 5 3 initial_world))) (self w') /\
          exists reply n p',
            trace w' = EvSendto reply (SendReturns n) p'
                         :: EvRecvfrom None
                              (RecvDatagram (datagram 0 0 ["a"; "b"]%byte))
                         :: trace (final_world (recv reordered 5 3 initial_world)) /\
            wire_ack reply =
              _received_bytes_n (self (final_world (recv reordered 5 3 initial_world))) /\
            wire_payload reply = [])
       (fun w' =>
          read_side_kept (self (final_world (recv reordered 5 3 initial_world))) (self w')).
Proof.
  apply (X13_duplicate_segment reordered None
           (final_world (recv reordered 5 3 initial_world))
           (datagram 0 0 ["a"; "b"]%byte)).
  - vm_compute. repeat constructor.
  - reflexivity.
  - vm_compute. reflexivity.
  - vm_compute. reflexivity.
Defined.

Lemma slice_to_all {A : Type} (l : list A) (k : Z) : len l <= k -> slice_to l k = l.
Proof.
  intros H. pose proof (len_nonneg l).
  rewrite slice_to_firstn by lia. apply firstn_all2. unfold len in *. lia.
Qed.

(** X14 — a datagram without payload.  Every datagram of at most 16 bytes
    is accepted as a pure acknowledgment, shorter ones included:
    [_receive_segment] returns [True], hands nothing to [sendto], reads
    the clock once, leaves [sent_bytes] and the read side as they are,
    stores the [ack] field as [confirmed_bytes] and prunes the send window
    by it.  A datagram of at most 8 bytes has no [ack] field: it is read as
    an acknowledgment of 0 bytes. *)
Theorem X14_short_datagram (env : Env) (timeout : option Z) (w : World) (d : bytes) :
  recvfrom_outcome env (recv_calls w) = RecvDatagram d ->
  len d <= service_len ->
  exists w',
    _receive_segment env timeout w = Ret true w' /\
    trace w' = EvRecvfrom timeout (RecvDatagram d) :: trace w /\
    send_calls w' = send_calls w /\
    time_calls w' = S (time_calls w) /\
    _sent_bytes_n (self w') = _sent_bytes_n (self w) /\
    _received_bytes_n (self w') = _received_bytes_n (self w) /\
    _buffer (self w') = _buffer (self w) /\
    _recv_window (self w') = _recv_window (self w) /\
    _confirmed_bytes_n (self w') = wire_ack d /\
    _send_window (self w') = prune_send_window (wire_ack d) (_send_window (self w)) /\
    (len d <= 8 -> wire_ack d = 0).
Proof.
  intros Hd Hlen.
  assert (Hcut : slice_to d (mss + service_len) = d)
    by (apply slice_to_all; unfold mss, service_len in *; lia).
  assert (Hnil : forall now, len (data (load now d)) = 0).
  { intros now. unfold load. cbn [data].
    rewrite len_slice_from by (unfold service_len; lia).
    unfold service_len in *. lia. }
  eexists. split.
  - unfold _receive_segment, bind. cbn. rewrite receive_attempt_eq. cbn.
    rewrite Hd, Hcut. cbn. rewrite Hnil. cbn. reflexivity.
  - cbn. repeat (split; [reflexivity |]).
    intros H8. unfold wire_ack, load. cbn [ack_number].
    rewrite slice_firstn_skipn by lia.
    rewrite skipn_all2 by (unfold len in H8; lia).
    reflexivity.
Qed.

Lemma X14_short_datagram_witness :
  exists w',
    _receive_segment (network [RecvDatagram hello] (fun k => Z.of_nat k)) None initial_world
      = Ret true w' /\
    trace w' = EvRecvfrom None (RecvDatagram hello) :: trace initial_world /\
    send_calls w' = send_calls initial_world /\
    time_calls w' = S (time_calls initial_world) /\
    _sent_bytes_n (self w') = _sent_bytes_n (self initial_world) /\
    _received_bytes_n (self w') = _received_bytes_n (self initial_world) /\
    _buffer (self w') = _buffer (self initial_world) /\
    _recv_window (self w') = _recv_window (self initial_world) /\
    _confirmed_bytes_n (self w') = wire_ack hello /\
    _send_window (self w') =
      prune_send_window (wire_ack hello) (_send_window (self initial_world)) /\
    (len hello <= 8 -> wire_ack hello = 0).
Proof.
  apply (X14_short_datagram (network [RecvDatagram hello] (fun k => Z.of_nat k)) None
           initial_world hello).
  - reflexivity.
  - vm_compute. discriminate.
Defined.


(* ------------------------------------------------------------------ *)
(** ** Retransmission *)

(** X15 — the retransmission of the earliest segment.  Let the head
    [(k, s)] of the send window be keyed by [s.seq_number], below every
    other key, with payload that ends at or before [sent_bytes], as in
    every reachable state with a sane [sendto]; let [s] encode to [d].
    If [s] has not expired, [_resend_earliest_segment] only reads the
    clock.  If it has expired and [sendto] takes the whole datagram, the
    datagram sent is [d], the send window afterwards is the one before
    with the sending time of its head set to the new clock reading, and no
    counter moves.  If it has expired and [sendto] raises, the exception
    leaves the method after [get()] has removed the head: the segment is
    no longer in the send window. *)
Theorem X15_retransmission (env : Env) (w : World) (k : Z) (s : TCPSegment)
  (rest : PriorityQueue) (d : bytes) :
  _send_window (self w) = (k, s) :: rest ->
  k = seq_number s ->
  Forall (fun e => k < fst e) rest ->
  seq_number s + len (data s) <= _sent_bytes_n (self w) ->
  0 < len (data s) ->
  dump s = Some d ->
  (expired (time_reading env (time_calls w)) s = false ->
   _resend_earliest_segment env w =
     Ret tt (mkWorld (self w) (udp_timeout w) (recv_calls w) (send_calls w)
                     (S (time_calls w)) (trace w))) /\
  (expired (time_reading env (time_calls w)) s = true ->
   sendto_outcome env (send_calls w) d = SendReturns (len d) ->
   _resend_earliest_segment env w =
     Ret tt (mkWorld
               (set_send_window
                  ((k, set_sending_time s (time_reading env (S (time_calls w)))) :: rest)
                  (self w))
               None (recv_calls w) (S (send_calls w)) (S (S (time_calls w)))
               (EvSendto d (SendReturns (len d)) (set_send_window rest (self w))
                  :: trace w))) /\
  (expired (time_reading env (time_calls w)) s = true ->
   sendto_outcome env (send_calls w) d = SendError ->
   _resend_earliest_segment env w =
     Raise SocketError
           (mkWorld (set_send_window rest (self w))
                    None (recv_calls w) (S (send_calls w)) (S (time_calls w))
                    (EvSendto d SendError (set_send_window rest (self w)) :: trace w))).
Proof.
  intros Ew Hk Hrest Hend Hpos Hd.
  pose proof (len_dump _ _ Hd) as Hlen.
  split; [| split].
  - intros Hexp. unfold _resend_earliest_segment, bind. cbn. rewrite Ew. cbn.
    now rewrite Hexp.
  - intros Hexp Hs. unfold _resend_earliest_segment, bind. cbn. rewrite Ew. cbn.
    rewrite Hexp. cbn.
    unfold _send_segment, TCPSegment_dump, sendto, bind. cbn. rewrite Hd. cbn.
    rewrite Hs. cbn.
    destruct (Z.eqb_spec (seq_number s) (_sent_bytes_n (self w))); [lia |].
    destruct (Z.gtb_spec (len d - service_len) 0); [| lia]. cbn.
    rewrite slice_to_all by lia.
    rewrite put_first by (cbn; now rewrite <- Hk).
    subst k. reflexivity.
  - intros Hexp Hs. unfold _resend_earliest_segment, bind. cbn. rewrite Ew. cbn.
    rewrite Hexp. cbn.
    unfold _send_segment, TCPSegment_dump, sendto, bind. cbn. rewrite Hd. cbn.
    now rewrite Hs.
Qed.

Lemma X15_retransmission_witness :
  (expired (time_reading silent_late (time_calls three_in_flight_world))
           (mkSegment 0 0 ["a"; "b"]%byte 0) = false ->
   _resend_earliest_segment silent_late three_in_flight_world =
     Ret tt (mkWorld (self three_in_flight_world) (udp_timeout three_in_flight_world)
                     (recv_calls three_in_flight_world) (send_calls three_in_flight_world)
                     (S (time_calls three_in_flight_world))
                     (trace three_in_flight_world))) /\
  (expired (time_reading silent_late (time_calls three_in_flight_world))
           (mkSegment 0 0 ["a"; "b"]%byte 0) = true ->
   sendto_outcome silent_late (send_calls three_in_flight_world)
                  (datagram 0 0 ["a"; "b"]%byte)
     = SendReturns (len (datagram 0 0 ["a"; "b"]%byte)) ->
   _resend_earliest_segment silent_late three_in_flight_world =
     Ret tt (mkWorld
               (set_send_window
                  ((0, set_sending_time
                         (mkSegment 0 0 ["a"; "b"]%byte 0)
                         (time_reading silent_late (S (time_calls three_in_flight_world))))
                     :: [ (2, mkSegment 2 0 ["c"]%byte 0);
                          (3, mkSegment 3 0 ["d"; "e"]%byte 0) ])
                  (self three_in_flight_world))
               None (recv_calls three_in_flight_world)
               (S (send_calls three_in_flight_world))
               (S (S (time_calls three_in_flight_world)))
               (EvSendto (datagram 0 0 ["a"; "b"]%byte)
                         (SendReturns (len (datagram 0 0 ["a"; "b"]%byte)))
                         (set_send_window
                            [ (2, mkSegment 2 0 ["c"]%byte 0);
                              (3, mkSegment 3 0 ["d"; "e"]%byte 0) ]
                            (self three_in_flight_world))
                  :: trace three_in_flight_world))) /\
  (expired (time_reading silent_late (time_calls three_in_flight_world))
           (mkSegment 0 0 ["a"; "b"]%byte 0) = true ->
   sendto_outcome silent_late (send_calls three_in_flight_world)
                  (datagram 0 0 ["a"; "b"]%byte)
     = SendError ->
   _resend_earliest_segment silent_late three_in_flight_world =
     Raise SocketError
           (mkWorld (set_send_window
                       [ (2, mkSegment 2 0 ["c"]%byte 0);
                         (3, mkSegment 3 0 ["d"; "e"]%byte 0) ]
                       (self three_in_flight_world))
                    None (recv_calls three_in_flight_world)
                    (S (send_calls three_in_flight_world))
                    (S (time_calls three_in_flight_world))
                    (EvSendto (datagram 0 0 ["a"; "b"]%byte) SendError
                              (set_send_window
                                 [ (2, mkSegment 2 0 ["c"]%byte 0);
                                   (3, mkSegment 3 0 ["d"; "e"]%byte 0) ]
                                 (self three_in_flight_world))
                       :: trace three_in_flight_world))).
Proof.
  apply (X15_retransmission silent_late three_in_flight_world 0
           (mkSegment 0 0 ["a"; "b"]%byte 0)
           [ (2, mkSegment 2 0 ["c"]%byte 0); (3, mkSegment 3 0 ["d"; "e"]%byte 0) ]
           (datagram 0 0 ["a"; "b"]%byte)).
  - reflexivity.
  - reflexivity.
  - repeat constructor.
  - vm_compute. discriminate.
  - vm_compute. reflexivity.
  - vm_compute. reflexivity.
Defined.

(* ------------------------------------------------------------------ *)
(** ** The counter of bytes sent *)

Lemma sent_bytes_send_effect (env : Env) (s0 : Z) (p : MyTCPProtocol) (s : TCPSegment)
  (d : bytes) (j : nat) (n now : Z) :
  sendto_header_whole env ->
  dump s = Some d -> sendto_outcome env j d = SendReturns n ->
  s0 <= _sent_bytes_n p -> s0 <= _sent_bytes_n (send_effect s n now p).
Proof.
  intros Hwhole Hd Hs H. rewrite send_effect_sent.
  pose proof (Hwhole j d n Hs (len_dump_ge _ _ Hd)).
  destruct (seq_number s =? _sent_bytes_n p); lia.
Qed.

(** X16 — [sent_bytes] does not decrease.  Provided [sendto] reports at
    least the 16 header bytes of every datagram, neither [send] nor [recv]
    lowers [sent_bytes], however the call ends. *)
Theorem X16_sent_bytes_monotone (env : Env) (fuel : nat) (d : bytes) (n : Z) (w : World) :
  sendto_header_whole env ->
  _sent_bytes_n (self w) <= _sent_bytes_n (self (final_world (send env fuel d w))) /\
  _sent_bytes_n (self w) <= _sent_bytes_n (self (final_world (recv env fuel n w))).
Proof.
  intros Hwhole.
  assert (Hdeliver : forall (p : MyTCPProtocol) (q : PriorityQueue),
             _sent_bytes_n (self w) <= _sent_bytes_n p ->
             _sent_bytes_n (self w)
               <= _sent_bytes_n (process_recv_window (set_recv_window q p))).
  { intros p q H.
    destruct (process_recv_window_other (set_recv_window q p)) as (-> & _). exact H. }
  split.
  - apply (arrival_send env (fun p _ => _sent_bytes_n (self w) <= _sent_bytes_n p)
             (fun _ => True)); trivial; try (unfold holds; lia).
    + intros p _ k s rest d0 r j now H _ Hd Hs.
      destruct r; [exact H | eapply sent_bytes_send_effect; eassumption].
    + intros p _ t0 d0 r j now H Hd Hs.
      destruct r; [exact H | eapply sent_bytes_send_effect; eassumption].
    + intros p _ k d0 now _ _ H. now apply Hdeliver.
    + intros p _ payload t0 d0 r j now H _ Hd Hs.
      destruct r; [exact H | eapply sent_bytes_send_effect; eassumption].
  - apply (arrival_recv env (fun p _ => _sent_bytes_n (self w) <= _sent_bytes_n p)
             (fun _ => True)); trivial; try (unfold holds; lia).
    + intros p _ t0 d0 r j now H Hd Hs.
      destruct r; [exact H | eapply sent_bytes_send_effect; eassumption].
    + intros p _ k d0 now _ _ H. now apply Hdeliver.
Qed.

Lemma X16_sent_bytes_monotone_witness :
  _sent_bytes_n (self initial_world)
    <= _sent_bytes_n (self (final_world (send crossing 30 hello initial_world))) /\
  _sent_bytes_n (self initial_world)
    <= _sent_bytes_n (self (final_world (recv crossing 30 1 initial_world))).
Proof.
  apply (X16_sent_bytes_monotone crossing 30 hello 1 initial_world).
  intros k d n H Hd. cbn in H. injection H as <-. exact Hd.
Defined.


(* ------------------------------------------------------------------ *)
(** ** Calls that do not touch the socket *)

(** X17 — [recv] served from the read buffer.  When the read buffer holds
    at least [n] bytes, which is always so for [n <= 0], [recv(n)] returns
    [buffer[:n]] at once and leaves [buffer[n:]]: it makes no receive
    attempt, sends nothing, needs no iteration of its loop, and changes
    nothing else.  For a negative [n] the result is the buffer without its
    last [-n] bytes, and those bytes are what stays in the buffer. *)
Theorem X17_recv_from_buffer (env : Env) (fuel : nat) (n : Z) (w : World) :
  n <= len (_buffer (self w)) ->
  recv env fuel n w =
    Ret (slice_to (_buffer (self w)) n)
        (mkWorld (set_buffer (slice_from (_buffer (self w)) n) (self w))
                 (udp_timeout w) (recv_calls w) (send_calls w) (time_calls w) (trace w)) /\
  (n < 0 ->
   len (slice_to (_buffer (self w)) n) = Z.max 0 (len (_buffer (self w)) + n) /\
   len (slice_from (_buffer (self w)) n) = Z.min (len (_buffer (self w))) (- n)).
Proof.
  intros Hn. pose proof (len_nonneg (_buffer (self w))) as H0.
  assert (Hlen : forall k, len (slice_to (_buffer (self w)) k)
                           = Z.of_nat (slice_index (len (_buffer (self w))) k)).
  { intros k. unfold slice_to, len. rewrite length_firstn.
    unfold slice_index, len. lia. }
  split.
  - unfold recv, bind. cbn. rewrite recv_loop_eq. cbn.
    replace (len (slice_to (_buffer (self w)) n) <? n) with false; [reflexivity |].
    symmetry. apply Z.ltb_ge. rewrite Hlen. unfold slice_index.
    destruct (Z.ltb_spec n 0); lia.
  - intros Hneg. split.
    + rewrite Hlen. unfold slice_index. destruct (Z.ltb_spec n 0); lia.
    + unfold slice_from, len. rewrite length_skipn.
      unfold slice_index, len. destruct (Z.ltb_spec n 0); lia.
Qed.

Lemma X17_recv_from_buffer_witness :
  recv silent_peer 0 (-1) (mkWorld (set_buffer hello init) None 0 0 0 []) =
    Ret (slice_to (_buffer (self (mkWorld (set_buffer hello init) None 0 0 0 []))) (-1))
        (mkWorld (set_buffer
                    (slice_from
                       (_buffer (self (mkWorld (set_buffer hello init) None 0 0 0 []))) (-1))
                    (self (mkWorld (set_buffer hello init) None 0 0 0 [])))
                 (udp_timeout (mkWorld (set_buffer hello init) None 0 0 0 []))
                 (recv_calls (mkWorld (set_buffer hello init) None 0 0 0 []))
                 (send_calls (mkWorld (set_buffer hello init) None 0 0 0 []))
                 (time_calls (mkWorld (set_buffer hello init) None 0 0 0 []))
                 (trace (mkWorld (set_buffer hello init) None 0 0 0 []))) /\
  (-1 < 0 ->
   len (slice_to (_buffer (self (mkWorld (set_buffer hello init) None 0 0 0 []))) (-1)) =
     Z.max 0 (len (_buffer (self (mkWorld (set_buffer hello init) None 0 0 0 []))) + -1) /\
   len (slice_from (_buffer (self (mkWorld (set_buffer hello init) None 0 0 0 []))) (-1)) =
     Z.min (len (_buffer (self (mkWorld (set_buffer hello init) None 0 0 0 [])))) (- -1)).
Proof.
  apply (X17_recv_from_buffer silent_peer 0 (-1)
           (mkWorld (set_buffer hello init) None 0 0 0 [])).
  vm_compute. discriminate.
Defined.

(** X18 — [send] with nothing to do.  With no data to send and nothing
    unacknowledged ([confirmed_bytes >= sent_bytes]), [send(b'')] returns 0
    at once: it sends nothing, makes no receive attempt, does not read the
    clock and changes no field, whatever is in the send window. *)
Theorem X18_send_nothing (env : Env) (fuel : nat) (w : World) :
  _sent_bytes_n (self w) <= _confirmed_bytes_n (self w) ->
  send env fuel [] w = Ret 0 w.
Proof.
  intros H. unfold send, bind. rewrite send_loop_eq. unfold send_continues. cbn.
  replace (_confirmed_bytes_n (self w) <? _sent_bytes_n (self w)) with false
    by (symmetry; apply Z.ltb_ge; exact H).
  reflexivity.
Qed.

Lemma X18_send_nothing_witness :
  send silent_peer 0 [] initial_world = Ret 0 initial_world.
Proof.
  apply (X18_send_nothing silent_peer 0 initial_world).
  vm_compute. discriminate.
Defined.

(* ------------------------------------------------------------------ *)
(** ** From [dump] on one side to the read buffer on the other *)

Lemma process_recv_window_next (p : MyTCPProtocol) (s : TCPSegment) :
  recv_window_ok p ->
  seq_number s = _received_bytes_n p ->
  exists more,
    _buffer (process_recv_window
               (set_recv_window (put (seq_number s, s) (_recv_window p)) p))
      = _buffer p ++ data s ++ more /\
    _received_bytes_n (process_recv_window
                         (set_recv_window (put (seq_number s, s) (_recv_window p)) p))
      = _received_bytes_n p + len (data s) + len more.
Proof.
  intros [[Hk _] Hall] Hs.
  rewrite put_first.
  - unfold process_recv_window. cbn. rewrite Hs, Z.eqb_refl.
    destruct (drain_recv_window_appends (_recv_window p)
                (_received_bytes_n p + len (data s)) (_buffer p ++ data s))
      as (more & Hb & Hr).
    destruct (drain_recv_window _ _ _) as [[q' r'] b']. cbn in *. subst.
    exists more. now rewrite app_assoc.
  - rewrite Forall_forall in *. intros x Hx. cbn.
    rewrite (Hk x Hx). destruct (Hall x Hx) as [Hgt _]. lia.
Qed.

(** X19 — the next segment, from the sender's [dump] to the read buffer.
    Let [d] be the datagram [dump] gives for a segment [s] with between 1
    and [mss] payload bytes, and let [d] arrive at an endpoint whose
    [received_bytes] is [s.seq_number] and whose receive window is
    [recv_window_ok], as it is in every reachable state.  Then [_receive_segment] appends the payload of [s] to the
    read buffer, followed by the payloads of the segments of the window
    that have become contiguous, and [received_bytes] grows by the number
    of bytes appended; this holds however the method ends.  When it
    returns, it returns [True], it has stored [s.ack_number] as
    [confirmed_bytes], and it has handed one datagram to [sendto]: a pure
    acknowledgment of the new [received_bytes]. *)
Theorem X19_next_segment_delivered (env : Env) (timeout : option Z) (w : World)
  (s : TCPSegment) (d : bytes) :
  dump s = Some d ->
  0 < len (data s) <= mss ->
  recvfrom_outcome env (recv_calls w) = RecvDatagram d ->
  seq_number s = _received_bytes_n (self w) ->
  recv_window_ok (self w) ->
  post (_receive_segment env timeout w)
       (fun ok w' =>
          ok = true /\
          (exists more,
              _buffer (self w') = _buffer (self w) ++ data s ++ more /\
              _received_bytes_n (self w')
                = _received_bytes_n (self w) + len (data s) + len more) /\
          _confirmed_bytes_n (self w') = ack_number s /\
          exists reply n p',
            trace w' = EvSendto reply (SendReturns n) p'
                         :: EvRecvfrom timeout (RecvDatagram d) :: trace w /\
            wire_ack reply = _received_bytes_n (self w') /\
            wire_payload reply = [])
       (fun w' =>
          exists more,
            _buffer (self w') = _buffer (self w) ++ data s ++ more /\
            _received_bytes_n (self w')
              = _received_bytes_n (self w) + len (data s) + len more).
Proof.
  intros Hd Hlen Hrecv Hseq Hok.
  pose proof (len_dump _ _ Hd) as Hld.
  unfold _receive_segment. cbn.
  apply post_bind. rewrite receive_attempt_eq. cbn. rewrite Hrecv. cbn.
  rewrite slice_to_all by lia.
  rewrite (load_dump _ s d Hd).
  set (s' := mkSegment (seq_number s) (ack_number s) (data s) _).
  pose proof (process_recv_window_next (self w) s' Hok Hseq) as Hnext.
  change (data s') with (data s) in *. change (seq_number s') with (seq_number s) in *.
  destruct (Z.gtb_spec (len (data s)) 0); [| lia]. mbind.
  fold s'. change (seq_number s') with (seq_number s).
  set (p1 := process_recv_window _) in *.
  apply _send_segment_post; cbn.
  - intros _. exact Hnext.
  - intros reply _ _. exact Hnext.
  - intros reply n Hreply _.
    destruct (send_effect_other (mkSegment (_sent_bytes_n p1) (_received_bytes_n p1) []
                                           (time_reading env (S (time_calls w))))
                                n (time_reading env (S (S (time_calls w)))) p1)
      as (_ & Er & _ & Eb).
    split; [reflexivity |]. rewrite Er, Eb. split; [exact Hnext |].
    split; [reflexivity |].
    exists reply, n, p1. split; [reflexivity |].
    apply wire_fields_dump in Hreply as (_ & -> & ->). cbn. auto.
Qed.

Lemma X19_next_segment_delivered_witness :
  post (_receive_segment (network [RecvDatagram (datagram 0 7 hello)] (fun k => Z.of_nat k))
                         None initial_world)
       (fun ok w' =>
          ok = true /\
          (exists more,
              _buffer (self w') =
                _buffer (self initial_world) ++ data (mkSegment 0 7 hello 0) ++ more /\
              _received_bytes_n (self w')
                = _received_bytes_n (self initial_world)
                  + len (data (mkSegment 0 7 hello 0)) + len more) /\
          _confirmed_bytes_n (self w') = ack_number (mkSegment 0 7 hello 0) /\
          exists reply n p',
            trace w' = EvSendto reply (SendReturns n) p'
                         :: EvRecvfrom None (RecvDatagram (datagram 0 7 hello))
                         :: trace initial_world /\
            wire_ack reply = _received_bytes_n (self w') /\
            wire_payload reply = [])
       (fun w' =>
          exists more,
            _buffer (self w') =
              _buffer (self initial_world) ++ data (mkSegment 0 7 hello 0) ++ more /\
            _received_bytes_n (self w')
              = _received_bytes_n (self initial_world)
                + len (data (mkSegment 0 7 hello 0)) + len more).
Proof.
  apply (X19_next_segment_delivered
           (network [RecvDatagram (datagram 0 7 hello)] (fun k => Z.of_nat k))
           None initial_world (mkSegment 0 7 hello 0) (datagram 0 7 hello)).
  - vm_compute. reflexivity.
  - vm_compute. split; [reflexivity | discriminate].
  - reflexivity.
  - reflexivity.
  - vm_compute. repeat constructor.
Defined.
